(** * rlang [src/utils.c]: node classification, call matching, formulas

    A shallow embedding of the C helpers of [src/utils.c] over a value model
    of the R object graph ([SEXP]), followed by the properties of the
    natural-language specification that concern them.

    Layout of the file:
    - [Outcome]: the three ways a C routine of the file can end;
    - [Rapi]: the part of the R C API the helpers call ([TYPEOF], [CAR],
      [Rf_length], [Rf_getAttrib], [Rf_setAttrib], ...);
    - [Utils]: the functions of [utils.c], line by line;
    - the vocabulary of the statements, then the lemmas and theorems. *)

From Stdlib Require Import ZArith List String Ascii Bool Lia.
Import ListNotations.

Local Open Scope string_scope.
Local Open Scope Z_scope.

(* ------------------------------------------------------------------------- *)
(** ** Outcomes *)

Module Outcome.

(** A call into the C code ends in one of three ways:
    - it returns a value ([Ok]);
    - it raises an R error through [Rf_error]/[Rf_errorcall] and never returns
      to its caller ([Raise], carrying the message);
    - it leaves the behaviour this development describes ([Unspecified]):
      C undefined behaviour (reading a slot the node does not have, indexing
      past the end of a vector, calling a null function pointer), or a
      corner of the R runtime that is not modelled here (coercion of
      non-character names, the setters of [dim], [tsp] and the like). *)
Inductive result (A : Type) : Type :=
| Ok (a : A)
| Raise (msg : string)
| Unspecified.

Arguments Ok {A} a.
Arguments Raise {A} msg.
Arguments Unspecified {A}.

Definition bind {A B : Type} (m : result A) (k : A -> result B) : result B :=
  match m with
  | Ok a => k a
  | Raise msg => Raise msg
  | Unspecified => Unspecified
  end.

Definition Rf_errorcall {A : Type} (msg : string) : result A := Raise msg.

End Outcome.
Import Outcome.

Declare Scope result_scope.
Delimit Scope result_scope with result.
Notation "x <- m ;; k" := (bind m (fun x => k))
  (at level 61, m at next level, right associativity) : result_scope.
Local Open Scope result_scope.

(* ------------------------------------------------------------------------- *)
(** ** The R object model *)

Module Rapi.

(** The type tags [TYPEOF] can return for the nodes modelled here. *)
Inductive SEXPTYPE : Set :=
| NILSXP | SYMSXP | LISTSXP | ENVSXP | LANGSXP | CHARSXP
| LGLSXP | INTSXP | REALSXP | CPLXSXP | STRSXP | VECSXP | RAWSXP.

Definition SEXPTYPE_eqb (a b : SEXPTYPE) : bool :=
  match a, b with
  | NILSXP, NILSXP | SYMSXP, SYMSXP | LISTSXP, LISTSXP | ENVSXP, ENVSXP
  | LANGSXP, LANGSXP | CHARSXP, CHARSXP | LGLSXP, LGLSXP | INTSXP, INTSXP
  | REALSXP, REALSXP | CPLXSXP, CPLXSXP | STRSXP, STRSXP | VECSXP, VECSXP
  | RAWSXP, RAWSXP => true
  | _, _ => false
  end.

(** The two kinds of cons cell: pairlists and calls. *)
Inductive cons_kind : Set := Pairlist | Language.

(** A cached string: either the missing string [NA_STRING] or the bytes of a
    NUL-terminated C string (without the terminator). *)
Inductive charsxp : Set :=
| NA_STRING
| mkChar (s : string).

(** R objects as values.  Attributes are the pairlist hanging off a node,
    kept as an association list from the print name of the tag symbol to the
    value, in the order R keeps them.  Integers and logicals are C [int]s,
    reals are the 64 bits of a double, both as [Z].  An environment is a
    handle together with the bindings its frame holds when the C routine is
    called; the code only passes it around and asks for its size. *)
#[warnings="-register-all"]
Inductive SEXP : Type :=
| R_NilValue
| SYM (pname : string)
| CHR (c : charsxp)
| CONS (k : cons_kind) (attrib : list (string * SEXP)) (car tag cdr : SEXP)
| LGL (attrib : list (string * SEXP)) (v : list Z)
| INT (attrib : list (string * SEXP)) (v : list Z)
| REAL (attrib : list (string * SEXP)) (v : list Z)
| CPLX (attrib : list (string * SEXP)) (v : list (Z * Z))
| STR (attrib : list (string * SEXP)) (v : list charsxp)
| RAW (attrib : list (string * SEXP)) (v : list Z)
| VEC (attrib : list (string * SEXP)) (v : list SEXP)
| ENV (attrib : list (string * SEXP)) (id : nat)
      (frame : list (string * SEXP)).

Definition attributes : Type := list (string * SEXP).

Definition TYPEOF (x : SEXP) : SEXPTYPE :=
  match x with
  | R_NilValue => NILSXP
  | SYM _ => SYMSXP
  | CHR _ => CHARSXP
  | CONS Pairlist _ _ _ _ => LISTSXP
  | CONS Language _ _ _ _ => LANGSXP
  | LGL _ _ => LGLSXP
  | INT _ _ => INTSXP
  | REAL _ _ => REALSXP
  | CPLX _ _ => CPLXSXP
  | STR _ _ => STRSXP
  | RAW _ _ => RAWSXP
  | VEC _ _ => VECSXP
  | ENV _ _ _ => ENVSXP
  end.

(** [NA_LOGICAL] and [NA_INTEGER] are [INT_MIN]. *)
Definition NA_LOGICAL : Z := - 2 ^ 31.

Definition R_NamesSymbol : SEXP := SYM "names".
Definition R_ClassSymbol : SEXP := SYM "class".
Definition R_DimSymbol : SEXP := SYM "dim".

(** Symbols are interned: [Rf_install] of a name is the symbol of that name. *)
Definition Rf_install (name : string) : SEXP := SYM name.

(** [CHAR]: the C string of a CHARSXP; the missing string prints as [NA]. *)
Definition CHAR (x : SEXP) : result string :=
  match x with
  | CHR NA_STRING => Ok "NA"
  | CHR (mkChar s) => Ok s
  | _ => Unspecified
  end.

Definition PRINTNAME (x : SEXP) : result SEXP :=
  match x with
  | SYM n => Ok (CHR (mkChar n))
  | _ => Unspecified
  end.

(** [strcmp] on C strings: negative, zero or positive. *)
Definition strcmp (a b : string) : Z :=
  match String.compare a b with
  | Eq => 0
  | Lt => -1
  | Gt => 1
  end.

(** *** Cons-cell accessors

    [R_NilValue] is its own car, cdr and tag.  A symbol shares the layout of
    a cons cell, its first slot holding the print name: that is what [CAR]
    reads on a symbol, which [is_lang] does.  The other slots of a symbol and
    every slot of a vector or environment are not cons slots. *)
Definition CAR (x : SEXP) : result SEXP :=
  match x with
  | R_NilValue => Ok R_NilValue
  | CONS _ _ car _ _ => Ok car
  | SYM n => Ok (CHR (mkChar n))
  | _ => Unspecified
  end.

Definition CDR (x : SEXP) : result SEXP :=
  match x with
  | R_NilValue => Ok R_NilValue
  | CONS _ _ _ _ cdr => Ok cdr
  | _ => Unspecified
  end.

Definition TAG (x : SEXP) : result SEXP :=
  match x with
  | R_NilValue => Ok R_NilValue
  | CONS _ _ _ tag _ => Ok tag
  | _ => Unspecified
  end.

Definition CADR (x : SEXP) : result SEXP := y <- CDR x ;; CAR y.
Definition CDDR (x : SEXP) : result SEXP := y <- CDR x ;; CDR y.
Definition CDAR (x : SEXP) : result SEXP := y <- CAR x ;; CDR y.
Definition CADDR (x : SEXP) : result SEXP := y <- CDDR x ;; CAR y.

Definition Rf_isNull (x : SEXP) : bool := SEXPTYPE_eqb (TYPEOF x) NILSXP.

(** The cells of a pairlist, front to back, as (car, tag) pairs: what the
    loops [for (; s != R_NilValue; s = CDR(s))] of the runtime walk over.
    A chain that ends in anything but [R_NilValue] has no such walk. *)
Fixpoint cells (x : SEXP) : result (list (SEXP * SEXP)) :=
  match x with
  | R_NilValue => Ok []
  | CONS _ _ car tag cdr => rest <- cells cdr ;; Ok ((car, tag) :: rest)
  | _ => Unspecified
  end.

(** [Rf_length]: 0 for NULL, the element count of a vector, the number of
    cells of a pairlist or call, the byte count of a CHARSXP, the number of
    bindings in the frame of an environment ([Rf_envlength]), 1 for a
    symbol. *)
Definition Rf_length (x : SEXP) : result Z :=
  match x with
  | R_NilValue => Ok 0
  | SYM _ => Ok 1
  | CHR c => s <- CHAR (CHR c) ;; Ok (Z.of_nat (String.length s))
  | CONS _ _ _ _ _ => l <- cells x ;; Ok (Z.of_nat (List.length l))
  | LGL _ v | INT _ v | REAL _ v | RAW _ v => Ok (Z.of_nat (List.length v))
  | CPLX _ v => Ok (Z.of_nat (List.length v))
  | STR _ v => Ok (Z.of_nat (List.length v))
  | VEC _ v => Ok (Z.of_nat (List.length v))
  | ENV _ _ frame => Ok (Z.of_nat (List.length frame))
  end.

(** [LOGICAL(x)[i]] and [STRING_ELT(x, i)]: defined inside the vector only. *)
Definition index {A : Type} (v : list A) (i : Z) : result A :=
  if (0 <=? i) && (i <? Z.of_nat (List.length v)) then
    match nth_error v (Z.to_nat i) with
    | Some a => Ok a
    | None => Unspecified
    end
  else Unspecified.

Definition LOGICAL_ELT (x : SEXP) (i : Z) : result Z :=
  match x with
  | LGL _ v => index v i
  | _ => Unspecified
  end.

Definition STRING_ELT (x : SEXP) (i : Z) : result SEXP :=
  match x with
  | STR _ v => c <- index v i ;; Ok (CHR c)
  | _ => Unspecified
  end.

(** [VECTOR_ELT(x, i)]: defined inside a list only. *)
Definition VECTOR_ELT (x : SEXP) (i : Z) : result SEXP :=
  match x with
  | VEC _ v => index v i
  | _ => Unspecified
  end.

(** Constructors of the API. *)
Definition Rf_cons (car cdr : SEXP) : SEXP := CONS Pairlist [] car R_NilValue cdr.
Definition Rf_lcons (car cdr : SEXP) : SEXP := CONS Language [] car R_NilValue cdr.
Definition Rf_lang2 (s t : SEXP) : SEXP := Rf_lcons s (Rf_cons t R_NilValue).
Definition Rf_mkString (s : string) : SEXP := STR [] [mkChar s].

(** *** Attributes

    Every node but [R_NilValue], symbols and CHARSXPs has an attribute slot
    here.  The object bit that [classgets] sets next to the [class]
    attribute is not represented: it is set exactly when a class is. *)
Definition ATTRIB (x : SEXP) : attributes :=
  match x with
  | R_NilValue | SYM _ | CHR _ => []
  | CONS _ a _ _ _ => a
  | LGL a _ | INT a _ | REAL a _ | RAW a _ => a
  | CPLX a _ => a
  | STR a _ => a
  | VEC a _ => a
  | ENV a _ _ => a
  end.

Definition SET_ATTRIB (x : SEXP) (a : attributes) : result SEXP :=
  match x with
  | R_NilValue | SYM _ | CHR _ =>
      match a with [] => Ok x | _ :: _ => Unspecified end
  | CONS k _ car tag cdr => Ok (CONS k a car tag cdr)
  | LGL _ v => Ok (LGL a v)
  | INT _ v => Ok (INT a v)
  | REAL _ v => Ok (REAL a v)
  | CPLX _ v => Ok (CPLX a v)
  | STR _ v => Ok (STR a v)
  | RAW _ v => Ok (RAW a v)
  | VEC _ v => Ok (VEC a v)
  | ENV _ id frame => Ok (ENV a id frame)
  end.

(** The value stored under the tag [name], or [R_NilValue]. *)
Fixpoint lookupAttrib (name : string) (a : attributes) : SEXP :=
  match a with
  | [] => R_NilValue
  | (t, v) :: rest => if String.eqb t name then v else lookupAttrib name rest
  end.

Fixpoint stripAttrib (name : string) (a : attributes) : attributes :=
  match a with
  | [] => []
  | (t, v) :: rest =>
      if String.eqb t name then stripAttrib name rest
      else (t, v) :: stripAttrib name rest
  end.

(** Overwrite the first entry tagged [name], or append a new one. *)
Fixpoint putAttrib (name : string) (val : SEXP) (a : attributes) : attributes :=
  match a with
  | [] => [(name, val)]
  | (t, v) :: rest =>
      if String.eqb t name then (t, val) :: rest
      else (t, v) :: putAttrib name val rest
  end.

Definition installAttrib (vec : SEXP) (name : string) (val : SEXP)
  : result SEXP :=
  match vec with
  | CHR _ => Raise "cannot set attribute on a CHARSXP"
  | SYM _ => Raise "cannot set attribute on a symbol"
  | _ => SET_ATTRIB vec (putAttrib name val (ATTRIB vec))
  end.

Definition isVector (x : SEXP) : bool :=
  match TYPEOF x with
  | LGLSXP | INTSXP | REALSXP | CPLXSXP | STRSXP | RAWSXP | VECSXP => true
  | _ => false
  end.

Definition isList (x : SEXP) : bool :=
  match TYPEOF x with NILSXP | LISTSXP => true | _ => false end.

Definition isLanguage (x : SEXP) : bool :=
  match TYPEOF x with NILSXP | LANGSXP => true | _ => false end.

Definition isString (x : SEXP) : bool := SEXPTYPE_eqb (TYPEOF x) STRSXP.

(** A vector, pairlist or call whose [dim] attribute is one integer. *)
Definition isOneDimensionalArray (vec : SEXP) : bool :=
  (isVector vec || isList vec || isLanguage vec) &&
  match lookupAttrib "dim" (ATTRIB vec) with
  | INT _ [_] => true
  | _ => false
  end.

(** The names of a pairlist or call are its tags: the empty string for an
    untagged cell, the print name of a symbol tag; any other tag is an error. *)
Fixpoint tag_names (l : list (SEXP * SEXP)) : result (list charsxp) :=
  match l with
  | [] => Ok []
  | (_, R_NilValue) :: rest => r <- tag_names rest ;; Ok (mkChar EmptyString :: r)
  | (_, SYM n) :: rest => r <- tag_names rest ;; Ok (mkChar n :: r)
  | _ :: _ => Raise "getAttrib: invalid type for TAG"
  end.

Definition any_tag (l : list (SEXP * SEXP)) : bool :=
  existsb (fun c => negb (Rf_isNull (snd c))) l.

Definition getAttrib0 (vec : SEXP) (name : string) : result SEXP :=
  if String.eqb name "names" then
    if isOneDimensionalArray vec
       && negb (Rf_isNull (lookupAttrib "dimnames" (ATTRIB vec)))
    then VECTOR_ELT (lookupAttrib "dimnames" (ATTRIB vec)) 0
    else if isList vec || isLanguage vec then
      l <- cells vec ;;
      s <- tag_names l ;;
      if any_tag l then Ok (STR [] s) else Ok R_NilValue
    else Ok (lookupAttrib name (ATTRIB vec))
  else Ok (lookupAttrib name (ATTRIB vec)).

(** [Rf_getAttrib(vec, name)] for a symbol [name].  Row names kept in their
    compact form [c(NA, n)] are expanded by the runtime; that expansion is
    not modelled. *)
Definition Rf_getAttrib (vec name : SEXP) : result SEXP :=
  match vec, name with
  | CHR _, _ => Raise "cannot have attributes on a CHARSXP"
  | _, SYM n =>
      match ATTRIB vec, TYPEOF vec with
      | _, LISTSXP | _, LANGSXP | _ :: _, _ =>
          if String.eqb n "row.names" then
            s <- getAttrib0 vec n ;;
            match s with
            | INT _ [a; _] => if a =? NA_LOGICAL then Unspecified else Ok s
            | _ => Ok s
            end
          else getAttrib0 vec n
      | [], _ => Ok R_NilValue
      end
  | _, _ => Unspecified
  end.

(** Clearing an attribute: the tags of a pairlist for [names], the entries
    of the attribute list otherwise ([dim] takes [dimnames] with it). *)
Fixpoint clear_tags (x : SEXP) : SEXP :=
  match x with
  | CONS k a car _ cdr => CONS k a car R_NilValue (clear_tags cdr)
  | _ => x
  end.

Definition removeAttrib (vec : SEXP) (name : string) : result (SEXP * SEXP) :=
  match vec with
  | CHR _ => Raise "cannot set attribute on a CHARSXP"
  | _ =>
      if String.eqb name "names" && (isList vec || isLanguage vec) then
        _ <- cells vec ;; Ok (clear_tags vec, R_NilValue)
      else
        let a := if String.eqb name "dim"
                 then stripAttrib "dimnames" (ATTRIB vec) else ATTRIB vec in
        vec' <- SET_ATTRIB vec (stripAttrib name a) ;;
        Ok (vec', R_NilValue)
  end.

Definition classgets (vec klass : SEXP) : result (SEXP * SEXP) :=
  match klass with
  | R_NilValue | STR _ [] =>
      vec' <- SET_ATTRIB vec (stripAttrib "class" (ATTRIB vec)) ;;
      Ok (vec', R_NilValue)
  | STR _ v =>
      match vec with
      | R_NilValue => Raise "attempt to set an attribute on NULL"
      | _ =>
          if existsb (fun c => match CHAR (CHR c) with
                               | Ok s => strcmp s "factor" =? 0
                               | _ => false
                               end) v
             && negb (SEXPTYPE_eqb (TYPEOF vec) INTSXP)
          then Raise "adding class 'factor' to an invalid object"
          else vec' <- installAttrib vec "class" klass ;; Ok (vec', R_NilValue)
      end
  | _ => Raise "attempt to set invalid 'class' attribute"
  end.

(** [Rf_install] on a string computed at run time: the runtime refuses the
    empty name and names of more than 10000 bytes. *)
Definition Rf_install_checked (name : string) : result SEXP :=
  if String.eqb name EmptyString
  then Raise "attempt to use zero-length variable name"
  else if 10000 <? Z.of_nat (String.length name)
  then Raise "variable names are limited to 10000 bytes"
  else Ok (Rf_install name).

(** [Rf_translateChar]: the C string of a CHARSXP in the native encoding.
    Strings are kept here as their native bytes, so nothing is re-encoded. *)
Definition Rf_translateChar (x : SEXP) : result string :=
  match x with
  | CHR _ => CHAR x
  | _ => Raise "'translateChar' must be called on a CHARSXP"
  end.

(** [installTrChar]: the symbol named by a CHARSXP, with the checks of
    [install]. *)
Definition installTrChar (x : SEXP) : result SEXP :=
  name <- Rf_translateChar x ;; Rf_install_checked name.

(** The tag a name becomes on a cons cell: none for a missing or empty
    name, the installed symbol otherwise. *)
Definition tag_of_name (c : charsxp) : result SEXP :=
  match c with
  | NA_STRING => Ok R_NilValue
  | mkChar EmptyString => Ok R_NilValue
  | mkChar _ => installTrChar (CHR c)
  end.

(** The loop of [namesgets] over the cells, front to back: the first name
    that cannot be installed ends it with its error. *)
Fixpoint set_tags (x : SEXP) (nms : list charsxp) : result SEXP :=
  match x, nms with
  | CONS k a car _ cdr, c :: rest =>
      tag <- tag_of_name c ;;
      cdr' <- set_tags cdr rest ;;
      Ok (CONS k a car tag cdr')
  | _, _ => Ok x
  end.

(** [inherits(s, name)]: [name] is among the classes of [s].  The object
    bit the runtime tests first is set exactly when a class is. *)
Definition inherits (s : SEXP) (name : string) : bool :=
  match lookupAttrib "class" (ATTRIB s) with
  | STR _ v =>
      existsb (fun c => match CHAR (CHR c) with
                        | Ok n => strcmp n name =? 0
                        | _ => false
                        end) v
  | _ => false
  end.

(** A vector whose [dim] attribute is an integer vector with an element. *)
Definition isArray (s : SEXP) : bool :=
  isVector s &&
  match lookupAttrib "dim" (ATTRIB s) with
  | INT _ (_ :: _) => true
  | _ => false
  end.

(** [dimnamesgets1] on the names of one dimension: no names for an empty
    vector, the character vector itself otherwise; a character vector
    classed as a factor is refused.  Other kinds of names are coerced by
    the runtime, which is not modelled. *)
Definition dimnamesgets1 (val1 : SEXP) : result SEXP :=
  match val1 with
  | STR _ [] => Ok R_NilValue
  | STR _ (_ :: _) =>
      if inherits val1 "factor" then Raise "malformed factor" else Ok val1
  | _ => Unspecified
  end.

(** The loop of [dimnamesgets] that tags the cells of a one-dimensional
    pairlist with its names: every name is installed, so an empty one is an
    error. *)
Fixpoint install_tags (x : SEXP) (top : list charsxp) : result SEXP :=
  match x with
  | R_NilValue => Ok x
  | CONS k a car _ cdr =>
      match top with
      | c :: rest =>
          tag <- installTrChar (CHR c) ;;
          cdr' <- install_tags cdr rest ;;
          Ok (CONS k a car tag cdr')
      | [] => Unspecified
      end
  | _ => Unspecified
  end.

(** [Rf_setAttrib(vec, R_DimNamesSymbol, CONS(val, R_NilValue))], the call
    [namesgets] makes on a one-dimensional array: [dimnamesgets] with the
    names of the single dimension.  It wants an array or a pairlist, names
    that are as many as the extent or none, stores them as the list
    [dimnames], and on a pairlist tags the cells as well. *)
Definition dimnamesgets_names (vec val : SEXP) : result SEXP :=
  if negb (isArray vec) && negb (isList vec)
  then Raise "'dimnames' applied to non-array"
  else
    match lookupAttrib "dim" (ATTRIB vec), val with
    | INT _ [d], STR _ v =>
        if negb (d =? Z.of_nat (List.length v))
           && negb (Z.of_nat (List.length v) =? 0)
        then Raise "length of 'dimnames' [1] not equal to array extent"
        else
          elt <- dimnamesgets1 val ;;
          vec' <- installAttrib vec "dimnames" (VEC [] [elt]) ;;
          if isList vec then
            match elt with
            | STR _ top => install_tags vec' top
            | _ => Unspecified
            end
          else Ok vec'
    | _, _ => Unspecified
    end.

(** [namesgets]: a character vector of names is padded with [NA_STRING] up
    to the length of [vec], its length is checked, and it is stored: in
    [dimnames] on a one-dimensional array, as tags on a pairlist or call, as
    the [names] attribute on a vector.  Names given as anything but a
    character vector are first coerced by the runtime, which is not
    modelled. *)
Definition namesgets (vec val : SEXP) : result (SEXP * SEXP) :=
  match val with
  | STR va v =>
      lx <- Rf_length vec ;;
      val' <- (if Z.of_nat (List.length v) <? lx then
                 match va with
                 | [] => Ok (STR []
                          (v ++ repeat NA_STRING (Z.to_nat lx - List.length v)))
                 | _ :: _ => Unspecified
                 end
               else Ok val) ;;
      lv <- Rf_length val' ;;
      if isVector vec || isList vec || isLanguage vec then
        if negb (lx =? lv) then
          Raise "'names' attribute must be the same length as the vector"
        else if isOneDimensionalArray vec then
          vec' <- dimnamesgets_names vec val' ;; Ok (vec', vec')
        else if isList vec || isLanguage vec then
          match val' with
          | STR _ v' => vec' <- set_tags vec v' ;; Ok (vec', vec')
          | _ => Unspecified
          end
        else
          vec' <- installAttrib vec "names" val' ;; Ok (vec', vec')
      else Raise "names() applied to a non-vector"
  | _ => Unspecified
  end.

(** [Rf_setAttrib(vec, name, val)] for a symbol [name].  The C routine
    updates [vec] in place; here it yields the updated node together with
    the value the C function returns.  The setters of [dim], [tsp],
    [comment] and [row.names] are not modelled, nor is that of [dimnames]
    beyond the call [namesgets] makes. *)
Definition Rf_setAttrib (vec name val : SEXP) : result (SEXP * SEXP) :=
  match name with
  | SYM n =>
      match val, vec with
      | R_NilValue, _ => removeAttrib vec n
      | _, R_NilValue => Raise "attempt to set an attribute on NULL"
      | _, _ =>
          if String.eqb n "names" then namesgets vec val
          else if String.eqb n "class" then classgets vec val
          else if existsb (String.eqb n)
                    ["dim"; "dimnames"; "tsp"; "comment"; "row.names"]
          then Unspecified
          else vec' <- installAttrib vec n val ;; Ok (vec', val)
      end
  | _ => Unspecified
  end.

Definition Rf_ScalarInteger (n : Z) : SEXP := INT [] [n].

End Rapi.
Import Rapi.

(* ------------------------------------------------------------------------- *)
(** ** [src/utils.c] *)

Module Utils.

(** C's conversions between [bool] and [int], and its short-circuit
    operators over computations that may not return. *)
Definition int_of_bool (b : bool) : Z := if b then 1 else 0.
Definition bool_of_int (n : Z) : bool := negb (n =? 0).

Definition or_else (a b : result bool) : result bool :=
  x <- a ;; if x then Ok true else b.
Definition and_also (a b : result bool) : result bool :=
  x <- a ;; if x then b else Ok false.

Infix "|||" := or_else (at level 50, left associativity) : result_scope.
Infix "&&&" := and_also (at level 40, left associativity) : result_scope.

(** A recognizer [int ( *sym_predicate)(SEXP)]: a null pointer or a C
    function, taken to be total and free of side effects.  Calling through
    a null pointer is undefined. *)
Definition sym_predicate_t : Type := option (SEXP -> Z).

Definition call (sym_predicate : sym_predicate_t) (x : SEXP) : result Z :=
  match sym_predicate with
  | Some p => Ok (p x)
  | None => Unspecified
  end.

Definition is_character (x : SEXP) : bool := SEXPTYPE_eqb (TYPEOF x) STRSXP.

Definition is_str_empty (str : SEXP) : result bool :=
  c_str <- CHAR str ;;
  Ok (strcmp c_str EmptyString =? 0).

Definition names (x : SEXP) : result SEXP := Rf_getAttrib x R_NamesSymbol.

Definition has_name_at (x : SEXP) (i : Z) : result bool :=
  nms <- names x ;;
  Ok (is_character nms) &&&
  (e <- STRING_ELT nms i ;; b <- is_str_empty e ;; Ok (negb b)).

Definition set_names (x nms : SEXP) : result SEXP :=
  r <- Rf_setAttrib x R_NamesSymbol nms ;; Ok (snd r).

Definition is_atomic (x : SEXP) : bool :=
  match TYPEOF x with
  | LGLSXP | INTSXP | REALSXP | CPLXSXP | STRSXP | RAWSXP => true
  | _ => false
  end.

Definition is_scalar_atomic (x : SEXP) : result bool :=
  (n <- Rf_length x ;; Ok (n =? 1)) &&& Ok (is_atomic x).

Definition is_list (x : SEXP) : bool := SEXPTYPE_eqb (TYPEOF x) VECSXP.

Definition is_vector (x : SEXP) : bool :=
  match TYPEOF x with
  | LGLSXP | INTSXP | REALSXP | CPLXSXP | STRSXP | RAWSXP | VECSXP => true
  | _ => false
  end.

Definition is_null (x : SEXP) : bool :=
  match x with R_NilValue => true | _ => false end.

Definition is_sym (x : SEXP) (string : string) : result Z :=
  if negb (SEXPTYPE_eqb (TYPEOF x) SYMSXP) then Ok (int_of_bool false)
  else
    p <- PRINTNAME x ;;
    c <- CHAR p ;;
    Ok (int_of_bool (strcmp c string =? 0)).

Definition is_symbolic (x : SEXP) : Z :=
  int_of_bool (SEXPTYPE_eqb (TYPEOF x) LANGSXP
               || SEXPTYPE_eqb (TYPEOF x) SYMSXP).

Definition is_lang (x : SEXP) (f : string) : result bool :=
  if negb (bool_of_int (is_symbolic x))
     && negb (SEXPTYPE_eqb (TYPEOF x) LISTSXP)
  then Ok false
  else
    fun_ <- CAR x ;;
    r <- is_sym fun_ f ;;
    Ok (bool_of_int r).

Definition is_prefixed_call (x : SEXP) (sym_predicate : sym_predicate_t)
  : result Z :=
  if negb (SEXPTYPE_eqb (TYPEOF x) LANGSXP) then Ok 0
  else
    head <- CAR x ;;
    q <- (is_lang head "$" ||| is_lang head "@" |||
          is_lang head "::" ||| is_lang head ":::") ;;
    if negb q then Ok 0
    else
      match sym_predicate with
      | None => Ok 1
      | Some _ =>
          args <- CDAR x ;;
          sym <- CADR args ;;
          call sym_predicate sym
      end.

Definition is_any_call (x : SEXP) (sym_predicate : sym_predicate_t)
  : result Z :=
  if negb (SEXPTYPE_eqb (TYPEOF x) LANGSXP) then Ok (int_of_bool false)
  else
    b <- ((head <- CAR x ;; r <- call sym_predicate head ;; Ok (bool_of_int r))
          ||| (r <- is_prefixed_call x sym_predicate ;; Ok (bool_of_int r))) ;;
    Ok (int_of_bool b).

Definition is_rlang_prefixed (x : SEXP) (sym_predicate : sym_predicate_t)
  : result Z :=
  if negb (SEXPTYPE_eqb (TYPEOF x) LANGSXP) then Ok 0
  else
    head <- CAR x ;;
    q <- is_lang head "::" ;;
    if negb q then Ok 0
    else
      args <- CDAR x ;;
      ns_sym <- CAR args ;;
      r <- is_sym ns_sym "rlang" ;;
      if negb (bool_of_int r) then Ok 0
      else
        match sym_predicate with
        | Some _ =>
            sym <- CADR args ;;
            call sym_predicate sym
        | None => Ok 1
        end.

Definition is_rlang_call (x : SEXP) (sym_predicate : sym_predicate_t)
  : result Z :=
  if negb (SEXPTYPE_eqb (TYPEOF x) LANGSXP) then Ok (int_of_bool false)
  else
    b <- ((head <- CAR x ;; r <- call sym_predicate head ;; Ok (bool_of_int r))
          ||| (r <- is_rlang_prefixed x sym_predicate ;; Ok (bool_of_int r))) ;;
    Ok (int_of_bool b).

Definition is_true (x : SEXP) : result Z :=
  bad <- (Ok (negb (SEXPTYPE_eqb (TYPEOF x) LGLSXP))
          ||| (n <- Rf_length x ;; Ok (negb (n =? 1)))) ;;
  if bad then Rf_errorcall "`x` must be a boolean"
  else
    value <- LOGICAL_ELT x 0 ;;
    Ok (if value =? NA_LOGICAL then 0 else value).

(** *** Formulas *)

Definition is_formula (x : SEXP) : result bool :=
  if negb (SEXPTYPE_eqb (TYPEOF x) LANGSXP) then Ok false
  else
    head <- CAR x ;;
    if negb (SEXPTYPE_eqb (TYPEOF head) SYMSXP) then Ok false
    else
      (r <- is_sym head "~" ;; Ok (bool_of_int r))
      ||| (r <- is_sym head ":=" ;; Ok (bool_of_int r)).

Definition is_fpromise (x : SEXP) : result bool :=
  is_formula x &&& (t <- CDDR x ;; Ok (Rf_isNull t)).

Definition f_rhs_ (f : SEXP) : result SEXP :=
  b <- is_formula f ;;
  if negb b then Rf_errorcall "`x` is not a formula"
  else
    n <- Rf_length f ;;
    if n =? 2 then CADR f
    else if n =? 3 then CADDR f
    else Rf_errorcall "Invalid formula".

Definition f_lhs_ (f : SEXP) : result SEXP :=
  b <- is_formula f ;;
  if negb b then Rf_errorcall "`x` is not a formula"
  else
    n <- Rf_length f ;;
    if n =? 2 then Ok R_NilValue
    else if n =? 3 then CADR f
    else Rf_errorcall "Invalid formula".

Definition f_env_ (f : SEXP) : result SEXP :=
  b <- is_formula f ;;
  if negb b then Rf_errorcall "`x` is not a formula"
  else Rf_getAttrib f (Rf_install ".Environment").

Definition make_formula1 (rhs env : SEXP) : result SEXP :=
  let f := Rf_lang2 (Rf_install "~") rhs in
  r1 <- Rf_setAttrib f R_ClassSymbol (Rf_mkString "formula") ;;
  let f := fst r1 in
  r2 <- Rf_setAttrib f (Rf_install ".Environment") env ;;
  let f := fst r2 in
  Ok f.

Definition is_empty (x : SEXP) : result bool :=
  n <- Rf_length x ;; Ok (n =? 0).

(** [while (CDR(x) != R_NilValue) x = CDR(x);] by recursion on the chain of
    cdrs. *)
Fixpoint last_cons (x : SEXP) : result SEXP :=
  match x with
  | R_NilValue => Ok x
  | CONS _ _ _ _ cdr =>
      match cdr with
      | R_NilValue => Ok x
      | _ => last_cons cdr
      end
  | _ => Unspecified
  end.

Definition rlang_length (x : SEXP) : result SEXP :=
  n <- Rf_length x ;; Ok (Rf_ScalarInteger n).

Definition rlang_symbol (chr : SEXP) : result SEXP :=
  string <- STRING_ELT chr 0 ;;
  name <- Rf_translateChar string ;;
  Rf_install_checked name.

End Utils.
Import Utils.

(* ------------------------------------------------------------------------- *)
(** ** Vocabulary of the statements

    Shapes of nodes, predicates on them and the sample nodes the statements
    below are instantiated at. *)

(** A cons cell whose car is the symbol named [f]: what [is_lang] tests. *)
Definition head_is (x : SEXP) (f : string) : bool :=
  match x with
  | CONS _ _ (SYM n) _ _ => String.eqb n f
  | _ => false
  end.

(** The shape [is_formula] accepts: a call whose head is [~] or [:=]. *)
Definition formula_shaped (x : SEXP) : bool :=
  match x with
  | CONS Language _ (SYM n) _ _ => String.eqb n "~" || String.eqb n ":="
  | _ => false
  end.

(** The trailing operands of a call: the cars of the cells after the head. *)
Definition operands (x : SEXP) : result (list SEXP) :=
  a <- CDR x ;; l <- cells a ;; Ok (map fst l).

(** The calls [~x], [y := x] and [`~`()]. *)
Definition formula1 : SEXP :=
  Rf_lcons (SYM "~") (Rf_cons (SYM "x") R_NilValue).
Definition formula2 : SEXP :=
  Rf_lcons (SYM ":=") (Rf_cons (SYM "y") (Rf_cons (SYM "x") R_NilValue)).
Definition formula0 : SEXP := Rf_lcons (SYM "~") R_NilValue.

(** The head of a qualified call: a cons cell headed by one of the four
    qualification symbols. *)
Definition qualifying (head : SEXP) : bool :=
  head_is head "$" || head_is head "@" ||
  head_is head "::" || head_is head ":::".

(** A recognizer that accepts the symbol named [b] and nothing else. *)
Definition accepts_only (r : SEXP -> Z) (b : string) : Prop :=
  forall s, r s <> 0 <-> s = SYM b.

(** The C recognizer [return is_sym(s, b);]. *)
Definition only_sym (b : string) (s : SEXP) : Z :=
  match s with
  | SYM n => int_of_bool (String.eqb n b)
  | _ => 0
  end.

(** The call [l q r ()], for a qualification symbol [q]: [pkg::f()],
    [obj$f()]. *)
Definition qualified_call (q l r : string) : SEXP :=
  Rf_lcons
    (Rf_lcons (SYM q) (Rf_cons (SYM l) (Rf_cons (SYM r) R_NilValue)))
    R_NilValue.

(** A logical vector of length one. *)
Definition scalar_logical (x : SEXP) : bool :=
  match x with
  | LGL _ [_] => true
  | _ => false
  end.

(** A node is well formed when every cons cell reachable through cars and
    cdrs has [R_NilValue] or another cons cell as its cdr. *)
Definition is_cell (x : SEXP) : bool :=
  match x with
  | R_NilValue | CONS _ _ _ _ _ => true
  | _ => false
  end.

Fixpoint well_formed (x : SEXP) : bool :=
  match x with
  | CONS _ _ car _ cdr => well_formed car && is_cell cdr && well_formed cdr
  | _ => true
  end.

(** The computation ends by returning a value. *)
Definition returns {A : Type} (m : result A) : Prop := exists a, m = Ok a.

(** The call whose head [`::`(pkg)] has a single sub-argument. *)
Definition short_qualified_call : SEXP :=
  Rf_lcons (Rf_lcons (SYM "::") (Rf_cons (SYM "pkg") R_NilValue)) R_NilValue.

(** The integer vector [c(a = 1L, 2L)]. *)
Definition named_vector : SEXP :=
  INT [("names", STR [] [mkChar "a"; mkChar EmptyString])] [1; 2].

(** A name that leaves no tag on a cons cell, and the name read back from
    the tag that [set_tags] leaves. *)
Definition blank (c : charsxp) : bool :=
  match c with
  | NA_STRING => true
  | mkChar s => String.eqb s EmptyString
  end.


(** A name [install] accepts as far as its length goes: at most 10000
    bytes; and a name it accepts altogether: not empty either.  The missing
    name is the two bytes [NA]. *)
Definition name_fits (c : charsxp) : bool :=
  match c with
  | NA_STRING => true
  | mkChar s => Z.of_nat (String.length s) <=? 10000
  end.


(** The tag [namesgets] leaves on a cell for a name that fits. *)
Definition tag_for (c : charsxp) : SEXP :=
  match c with
  | NA_STRING => R_NilValue
  | mkChar EmptyString => R_NilValue
  | mkChar s => SYM s
  end.



(** The call [f(a)] and two empty names for it. *)
Definition call_f_a : SEXP :=
  Rf_lcons (SYM "f") (Rf_cons (SYM "a") R_NilValue).

(** Two computations end the same way: both return, or both raise the same
    error, or both are unspecified. *)
Definition same_outcome {A B : Type} (a : result A) (b : result B) : Prop :=
  match a, b with
  | Ok _, Ok _ => True
  | Raise m, Raise m' => m = m'
  | Unspecified, Unspecified => True
  | _, _ => False
  end.

(** An atomic vector with exactly one element. *)
Definition scalar_atomic_shape (x : SEXP) : bool :=
  match x with
  | LGL _ [_] | INT _ [_] | REAL _ [_] | RAW _ [_] => true
  | CPLX _ [_] => true
  | STR _ [_] => true
  | _ => false
  end.

(** [NULL], a vector without elements, the CHARSXP of the empty string, or
    an environment whose frame holds no binding. *)
Definition empty_shape (x : SEXP) : bool :=
  match x with
  | R_NilValue => true
  | CHR (mkChar EmptyString) => true
  | ENV _ _ [] => true
  | LGL _ [] | INT _ [] | REAL _ [] | RAW _ [] => true
  | CPLX _ [] => true
  | STR _ [] => true
  | VEC _ [] => true
  | _ => false
  end.

(** Tags a pairlist cell may carry, and those that name the cell. *)
Definition valid_tag (tag : SEXP) : bool :=
  match tag with
  | R_NilValue | SYM _ => true
  | _ => false
  end.

Definition naming_tag (tag : SEXP) : bool :=
  match tag with
  | SYM n => negb (String.eqb n EmptyString)
  | _ => false
  end.

(** The call [f(a, k = b)], whose second argument is tagged. *)
Definition call_f_a_kb : SEXP :=
  Rf_lcons (SYM "f")
    (Rf_cons (SYM "a")
       (CONS Pairlist [] (SYM "b") (SYM "k") R_NilValue)).

(* ------------------------------------------------------------------------- *)
(** ** Basic facts about the runtime model *)

Lemma compare_refl (s : string) : String.compare s s = Eq.
Proof.
  pose proof (String.compare_antisym s s) as H.
  destruct (String.compare s s); simpl in H; congruence.
Qed.

Lemma strcmp_zero (a b : string) : (strcmp a b =? 0) = String.eqb a b.
Proof.
  unfold strcmp.
  destruct (String.eqb_spec a b) as [-> | Hne].
  - now rewrite compare_refl.
  - destruct (String.compare a b) eqn:E; trivial.
    apply String.compare_eq_iff in E. contradiction.
Qed.

Lemma is_sym_SYM (n f : string) :
  is_sym (SYM n) f = Ok (int_of_bool (String.eqb n f)).
Proof. unfold is_sym. simpl. now rewrite strcmp_zero. Qed.

Lemma is_sym_other (x : SEXP) (f : string) :
  TYPEOF x <> SYMSXP -> is_sym x f = Ok 0.
Proof.
  destruct x as [| | | [|] | | | | | | | |];
    unfold is_sym; simpl; intros; congruence.
Qed.

Lemma bool_of_int_of_bool (b : bool) : bool_of_int (int_of_bool b) = b.
Proof. now destruct b. Qed.

Lemma is_lang_head_is (x : SEXP) (f : string) : is_lang x f = Ok (head_is x f).
Proof.
  destruct x as [| n | c | k a car t d | | | | | | | |]; try reflexivity.
  assert (E : is_lang (CONS k a car t d) f
              = (r <- is_sym car f ;; Ok (bool_of_int r)))
    by now destruct k.
  rewrite E. destruct car as [| n | | [|] | | | | | | | |];
    try (rewrite is_sym_other by discriminate; reflexivity).
  rewrite is_sym_SYM. simpl. now rewrite bool_of_int_of_bool.
Qed.

Lemma head_is_inv (x : SEXP) (f : string) :
  head_is x f = true ->
  exists k a t d, x = CONS k a (SYM f) t d.
Proof.
  destruct x as [| | | k a car t d | | | | | | | |]; try discriminate.
  destruct car; try discriminate. simpl.
  intros H%String.eqb_eq. subst. now exists k, a, t, d.
Qed.

Lemma is_formula_shape (x : SEXP) : is_formula x = Ok (formula_shaped x).
Proof.
  destruct x as [| | | k a car t d | | | | | | | |]; try reflexivity.
  destruct k; try reflexivity.
  destruct car as [| pname | | [|] | | | | | | | |]; try reflexivity.
  unfold is_formula, or_else. simpl. rewrite !strcmp_zero.
  destruct (String.eqb pname "~"), (String.eqb pname ":="); reflexivity.
Qed.

Lemma bind_Ok_inv {A B : Type} (m : result A) (k : A -> result B) (b : B) :
  bind m k = Ok b -> exists a, m = Ok a /\ k a = Ok b.
Proof. destruct m; simpl; try discriminate. intros H. now exists a. Qed.

Lemma cells_map_nil (x : SEXP) (l : list (SEXP * SEXP)) :
  cells x = Ok l -> map fst l = [] -> x = R_NilValue.
Proof.
  destruct x; simpl; try discriminate; trivial.
  intros H E. apply bind_Ok_inv in H as (r & _ & H).
  injection H as <-. discriminate.
Qed.

Lemma cells_map_cons (x : SEXP) (l : list (SEXP * SEXP)) (c : SEXP)
      (cs : list SEXP) :
  cells x = Ok l -> map fst l = c :: cs ->
  exists k a t d l', x = CONS k a c t d /\ cells d = Ok l' /\ map fst l' = cs.
Proof.
  destruct x; simpl; try discriminate.
  - intros [= <-]. discriminate.
  - intros H E. apply bind_Ok_inv in H as (r & Hr & H).
    injection H as <-. simpl in E. injection E as <- <-.
    now exists k, attrib, x2, x3, r.
Qed.

Lemma cells_length (x : SEXP) (l : list (SEXP * SEXP)) :
  cells x = Ok l ->
  match x with
  | R_NilValue => l = []
  | _ => Rf_length x = Ok (Z.of_nat (List.length l))
  end.
Proof.
  destruct x; simpl; try discriminate.
  - now intros [= <-].
  - intros H. now rewrite H.
Qed.

(* ------------------------------------------------------------------------- *)
(** ** Formulas *)

(** C1. Round trip through [make_formula1]: for every expression [rhs] and
    every scope reference [env], the constructor returns a formula whose
    right-hand side is [rhs], whose left-hand side is the absent marker
    [R_NilValue], whose scope is [env], and which is one-sided. *)
Theorem make_formula1_round_trip (rhs env : SEXP) :
  exists f,
    make_formula1 rhs env = Ok f /\
    f_rhs_ f = Ok rhs /\
    f_lhs_ f = Ok R_NilValue /\
    f_env_ f = Ok env /\
    is_fpromise f = Ok true.
Proof.
  unfold make_formula1. simpl.
  destruct env; simpl; eexists; (split; [reflexivity |]);
    repeat split; reflexivity.
Qed.

Lemma formula_shaped_inv (f : SEXP) :
  formula_shaped f = true ->
  exists a n t d, f = CONS Language a (SYM n) t d.
Proof.
  destruct f as [| | | [|] a car t d | | | | | | | |]; try discriminate.
  destruct car; try discriminate. intros _. now exists a, pname, t, d.
Qed.

Lemma operands_inv (k : cons_kind) (a : attributes) (car t d : SEXP)
      (ops : list SEXP) :
  operands (CONS k a car t d) = Ok ops ->
  exists l, cells d = Ok l /\ map fst l = ops /\
            Rf_length (CONS k a car t d)
            = Ok (Z.of_nat (S (List.length ops))).
Proof.
  unfold operands. simpl. intros H.
  apply bind_Ok_inv in H as (l & Hl & H). injection H as <-.
  exists l. repeat split; trivial.
  rewrite Hl. simpl. now rewrite length_map.
Qed.

Ltac formula_cases f Hf :=
  rewrite is_formula_shape in Hf; injection Hf as Hf;
  destruct (formula_shaped_inv f Hf) as (fa & fn & ft & fd & ->).

(** C2. On a formula node (head symbol [~] or [:=]): with exactly one
    trailing operand, [f_rhs_] returns it and [f_lhs_] returns the absent
    marker; with exactly two, [f_rhs_] returns the second and [f_lhs_] the
    first; with none, or with three or more, both fail with the error
    [Invalid formula]. *)
Theorem f_rhs_lhs_by_arity (f : SEXP) :
  is_formula f = Ok true ->
  (forall a, operands f = Ok [a] ->
     f_rhs_ f = Ok a /\ f_lhs_ f = Ok R_NilValue) /\
  (forall a b, operands f = Ok [a; b] ->
     f_rhs_ f = Ok b /\ f_lhs_ f = Ok a) /\
  (forall ops, operands f = Ok ops ->
     (List.length ops = 0 \/ 3 <= List.length ops)%nat ->
     f_rhs_ f = Raise "Invalid formula" /\
     f_lhs_ f = Raise "Invalid formula").
Proof.
  intros Hf. pose proof Hf as Hshape. formula_cases f Hshape.
  unfold f_rhs_, f_lhs_. rewrite Hf. cbn [bind negb].
  split; [| split].
  - intros a Hops.
    destruct (operands_inv _ _ _ _ _ _ Hops) as (l & Hl & Hm & ->).
    destruct (cells_map_cons _ _ _ _ Hl Hm) as (k & a' & t & d & l' & -> & _).
    now split.
  - intros a b Hops.
    destruct (operands_inv _ _ _ _ _ _ Hops) as (l & Hl & Hm & ->).
    destruct (cells_map_cons _ _ _ _ Hl Hm)
      as (k & a' & t & d & l' & -> & Hl' & Hm').
    destruct (cells_map_cons _ _ _ _ Hl' Hm')
      as (k2 & a2 & t2 & d2 & l2 & -> & _).
    now split.
  - intros ops Hops Hlen.
    destruct (operands_inv _ _ _ _ _ _ Hops) as (l & _ & _ & ->).
    cbn [bind].
    destruct (Z.eqb_spec (Z.of_nat (S (List.length ops))) 2) as [E | _];
      [lia |].
    destruct (Z.eqb_spec (Z.of_nat (S (List.length ops))) 3) as [E | _];
      [lia |].
    now split.
Qed.

Lemma f_rhs_lhs_by_arity_witness :
  (f_rhs_ formula1 = Ok (SYM "x") /\ f_lhs_ formula1 = Ok R_NilValue) /\
  (f_rhs_ formula2 = Ok (SYM "x") /\ f_lhs_ formula2 = Ok (SYM "y")) /\
  (f_rhs_ formula0 = Raise "Invalid formula" /\
   f_lhs_ formula0 = Raise "Invalid formula").
Proof.
  split; [| split].
  - apply (proj1 (f_rhs_lhs_by_arity formula1 eq_refl)). reflexivity.
  - apply (proj1 (proj2 (f_rhs_lhs_by_arity formula2 eq_refl))). reflexivity.
  - apply (proj2 (proj2 (f_rhs_lhs_by_arity formula0 eq_refl)) []).
    + reflexivity.
    + left. reflexivity.
Defined.

(** What [is_fpromise] computes: a formula-shaped node with no second
    trailing operand. *)
Lemma is_fpromise_at_most_one (x : SEXP) (ops : list SEXP) :
  is_formula x = Ok true ->
  operands x = Ok ops ->
  is_fpromise x = Ok (Nat.leb (List.length ops) 1).
Proof.
  intros Hf Hops. pose proof Hf as Hshape. formula_cases x Hshape.
  unfold is_fpromise, and_also. rewrite Hf. cbn [bind].
  destruct (operands_inv _ _ _ _ _ _ Hops) as (l & Hl & Hm & _).
  destruct ops as [| a ops].
  - now rewrite (cells_map_nil _ _ Hl Hm).
  - destruct (cells_map_cons _ _ _ _ Hl Hm)
      as (k & a' & t & d & l' & -> & Hl' & Hm').
    destruct ops as [| b ops].
    + now rewrite (cells_map_nil _ _ Hl' Hm').
    + destruct (cells_map_cons _ _ _ _ Hl' Hm')
        as (k2 & a2 & t2 & d2 & l2 & -> & _).
      now destruct k2.
Qed.

(** C3, at the call [`~`()]: the node is formula-shaped and has no trailing
    operand, the accessors [f_rhs_] and [f_lhs_] reject it as an invalid
    formula, and [is_fpromise] nevertheless answers true. *)
Theorem is_fpromise_no_operand :
  is_formula formula0 = Ok true /\
  operands formula0 = Ok [] /\
  f_rhs_ formula0 = Raise "Invalid formula" /\
  is_fpromise formula0 = Ok true.
Proof. repeat split. Qed.

(* ------------------------------------------------------------------------- *)
(** ** Call matching *)

Lemma LANGSXP_inv (x head : SEXP) :
  TYPEOF x = LANGSXP -> CAR x = Ok head ->
  exists a t d, x = CONS Language a head t d.
Proof.
  destruct x as [| | | [|] a car t d | | | | | | | |]; try discriminate.
  intros _ [= ->]. now exists a, t, d.
Qed.

Lemma qualifying_lang (head : SEXP) :
  (is_lang head "$" ||| is_lang head "@" |||
   is_lang head "::" ||| is_lang head ":::") = Ok (qualifying head).
Proof.
  rewrite !is_lang_head_is. unfold qualifying, or_else. simpl.
  destruct (head_is head "$"), (head_is head "@"), (head_is head "::");
    reflexivity.
Qed.

Lemma is_prefixed_call_unfold (x head : SEXP) (p : SEXP -> Z) :
  TYPEOF x = LANGSXP -> CAR x = Ok head ->
  is_prefixed_call x (Some p) =
  if qualifying head
  then args <- CDR head ;; sym <- CADR args ;; Ok (p sym)
  else Ok 0.
Proof.
  intros Hx Hcar. destruct (LANGSXP_inv _ _ Hx Hcar) as (a & t & d & ->).
  unfold is_prefixed_call. cbn [TYPEOF SEXPTYPE_eqb negb CAR bind].
  rewrite qualifying_lang. cbn [bind].
  destruct (qualifying head); reflexivity.
Qed.

Lemma is_any_call_unfold (x head : SEXP) (p : SEXP -> Z) :
  TYPEOF x = LANGSXP -> CAR x = Ok head ->
  is_any_call x (Some p) =
  if bool_of_int (p head) then Ok 1
  else q <- is_prefixed_call x (Some p) ;; Ok (int_of_bool (bool_of_int q)).
Proof.
  intros Hx Hcar. destruct (LANGSXP_inv _ _ Hx Hcar) as (a & t & d & ->).
  unfold is_any_call, or_else. cbn [TYPEOF SEXPTYPE_eqb negb CAR bind call].
  destruct (bool_of_int (p head)); [reflexivity |].
  destruct (is_prefixed_call _ _); reflexivity.
Qed.

Lemma is_rlang_call_unfold (x head : SEXP) (p : SEXP -> Z) :
  TYPEOF x = LANGSXP -> CAR x = Ok head ->
  is_rlang_call x (Some p) =
  if bool_of_int (p head) then Ok 1
  else q <- is_rlang_prefixed x (Some p) ;; Ok (int_of_bool (bool_of_int q)).
Proof.
  intros Hx Hcar. destruct (LANGSXP_inv _ _ Hx Hcar) as (a & t & d & ->).
  unfold is_rlang_call, or_else. cbn [TYPEOF SEXPTYPE_eqb negb CAR bind call].
  destruct (bool_of_int (p head)); [reflexivity |].
  destruct (is_rlang_prefixed _ _); reflexivity.
Qed.

Lemma accepts_only_value (r : SEXP -> Z) (b : string) (s : SEXP) :
  accepts_only r b ->
  bool_of_int (r s) = true <-> s = SYM b.
Proof.
  intros H. rewrite <- (H s). unfold bool_of_int.
  destruct (Z.eqb_spec (r s) 0); simpl; split; intros; congruence.
Qed.

Lemma accepts_only_sym (b : string) : accepts_only (only_sym b) b.
Proof.
  intros s. destruct s; simpl; try (split; [lia | discriminate]).
  destruct (String.eqb_spec pname b) as [-> | Hne]; simpl.
  - split; [reflexivity | lia].
  - split; [lia | congruence].
Qed.

Lemma operands_two (head l r : SEXP) :
  operands head = Ok [l; r] ->
  exists args, CDR head = Ok args /\ CAR args = Ok l /\ CADR args = Ok r.
Proof.
  unfold operands. intros H.
  apply bind_Ok_inv in H as (args & Hcdr & H).
  apply bind_Ok_inv in H as (cs & Hcells & H). injection H as Hm.
  destruct (cells_map_cons _ _ _ _ Hcells Hm)
    as (k & a & t & d & cs' & -> & Hcells' & Hm').
  destruct (cells_map_cons _ _ _ _ Hcells' Hm')
    as (k2 & a2 & t2 & d2 & cs2 & -> & _).
  now exists (CONS k a l t (CONS k2 a2 r t2 d2)).
Qed.

(** C4. Qualified-call recognition keys off the second sub-argument of the
    qualifying head: for a recognizer [r] that accepts exactly the symbol
    named [b], [is_any_call] on a call whose head is [pkg::n] returns false
    when [n] differs from [b] and true when [n] is [b], whatever the
    namespace [pkg] is. *)
Theorem is_any_call_keys_off_name
        (r : SEXP -> Z) (b pkg n : string) (x head : SEXP) :
  accepts_only r b ->
  TYPEOF x = LANGSXP -> CAR x = Ok head ->
  TYPEOF head = LANGSXP -> CAR head = Ok (SYM "::") ->
  operands head = Ok [SYM pkg; SYM n] ->
  (n <> b -> is_any_call x (Some r) = Ok 0) /\
  (n = b -> is_any_call x (Some r) = Ok 1).
Proof.
  intros Hr Hx Hcar Hh Hhcar Hops.
  rewrite (is_any_call_unfold _ _ _ Hx Hcar).
  rewrite (is_prefixed_call_unfold _ _ _ Hx Hcar).
  destruct (LANGSXP_inv _ _ Hh Hhcar) as (a & t & d & ->).
  destruct (operands_two _ _ _ Hops) as (args & -> & _ & Hcadr).
  assert (Hhead : bool_of_int (r (CONS Language a (SYM "::") t d)) = false).
  { destruct (bool_of_int _) eqn:E; trivial.
    apply (accepts_only_value r b _ Hr) in E. discriminate. }
  rewrite Hhead. simpl. rewrite Hcadr. simpl.
  pose proof (accepts_only_value r b (SYM n) Hr) as Hn.
  split; intros Hnb.
  - destruct (bool_of_int (r (SYM n))); trivial.
    destruct Hn as [Hn _]. specialize (Hn eq_refl). congruence.
  - subst n. destruct Hn as [_ Hn]. now rewrite Hn.
Qed.

Lemma is_any_call_keys_off_name_witness :
  is_any_call (qualified_call "::" "pkg" "a") (Some (only_sym "b")) = Ok 0 /\
  is_any_call (qualified_call "::" "pkg" "b") (Some (only_sym "b")) = Ok 1.
Proof.
  split.
  - apply (is_any_call_keys_off_name (only_sym "b") "b" "pkg" "a"
             (qualified_call "::" "pkg" "a") _
             (accepts_only_sym "b") eq_refl eq_refl eq_refl eq_refl eq_refl).
    discriminate.
  - apply (is_any_call_keys_off_name (only_sym "b") "b" "pkg" "b"
             (qualified_call "::" "pkg" "b") _
             (accepts_only_sym "b") eq_refl eq_refl eq_refl eq_refl eq_refl).
    reflexivity.
Defined.

Lemma qualifying_inv (head : SEXP) :
  qualifying head = true ->
  exists k a q t d, head = CONS k a (SYM q) t d.
Proof.
  unfold qualifying. intros H.
  repeat (apply orb_true_iff in H as [H | H]);
    apply head_is_inv in H as (k & a & t & d & ->); now eexists k, a, _, t, d.
Qed.

Lemma is_rlang_prefixed_unfold (x head : SEXP) (p : SEXP -> Z) :
  TYPEOF x = LANGSXP -> CAR x = Ok head ->
  is_rlang_prefixed x (Some p) =
  if head_is head "::"
  then args <- CDR head ;;
       ns_sym <- CAR args ;;
       r <- is_sym ns_sym "rlang" ;;
       if bool_of_int r then sym <- CADR args ;; Ok (p sym) else Ok 0
  else Ok 0.
Proof.
  intros Hx Hcar. destruct (LANGSXP_inv _ _ Hx Hcar) as (a & t & d & ->).
  unfold is_rlang_prefixed. cbn [TYPEOF SEXPTYPE_eqb negb CAR bind].
  rewrite is_lang_head_is. cbn [bind].
  destruct (head_is head "::"); [| reflexivity]. cbn [negb].
  unfold CDAR. cbn [CAR bind].
  destruct (CDR head) as [args | |]; try reflexivity. cbn [bind].
  destruct (CAR args) as [ns | |]; try reflexivity. cbn [bind].
  destruct (is_sym ns "rlang") as [z | |]; try reflexivity. cbn [bind].
  destruct (bool_of_int z); reflexivity.
Qed.

(** C5, as the code has it.  [is_rlang_call] first applies the recognizer
    to the head of the call.  When the recognizer rejects the qualifying
    head itself, a qualified call whose prefix is not [::], or whose left
    operand is a symbol other than [rlang], is rejected, whatever the
    recognizer says of the right-hand symbol; and on an unqualified call the
    answer is whether the recognizer accepts the bare head. *)
Theorem is_rlang_call_namespace (r : SEXP -> Z) (x head : SEXP) :
  TYPEOF x = LANGSXP -> CAR x = Ok head ->
  (qualifying head = true -> r head = 0 ->
   head_is head "::" = false \/
   (exists args l,
       CDR head = Ok args /\ CAR args = Ok (SYM l) /\ l <> "rlang") ->
   is_rlang_call x (Some r) = Ok 0) /\
  (qualifying head = false ->
   is_rlang_call x (Some r) = Ok (int_of_bool (bool_of_int (r head)))).
Proof.
  intros Hx Hcar.
  rewrite (is_rlang_call_unfold _ _ _ Hx Hcar).
  rewrite (is_rlang_prefixed_unfold _ _ _ Hx Hcar).
  split.
  - intros _ Hr Hq. rewrite Hr. cbn [bool_of_int Z.eqb negb].
    destruct Hq as [-> | (args & l & Hcdr & Hns & Hl)]; [reflexivity |].
    destruct (head_is head "::"); [| reflexivity].
    rewrite Hcdr. cbn [bind]. rewrite Hns. cbn [bind].
    rewrite is_sym_SYM. apply String.eqb_neq in Hl. now rewrite Hl.
  - intros Hq. unfold qualifying in Hq.
    destruct (head_is head "::").
    + now rewrite !orb_true_r in Hq.
    + now destruct (bool_of_int (r head)).
Qed.

Lemma is_rlang_call_namespace_witness :
  is_rlang_call (qualified_call "$" "rlang" "b") (Some (only_sym "b")) = Ok 0 /\
  is_rlang_call (qualified_call "::" "pkg" "b") (Some (only_sym "b")) = Ok 0 /\
  is_rlang_call (Rf_lcons (SYM "b") R_NilValue) (Some (only_sym "b")) = Ok 1.
Proof.
  split; [| split].
  - apply (proj1 (is_rlang_call_namespace (only_sym "b")
                    (qualified_call "$" "rlang" "b") _ eq_refl eq_refl));
      [reflexivity | reflexivity | left; reflexivity].
  - apply (proj1 (is_rlang_call_namespace (only_sym "b")
                    (qualified_call "::" "pkg" "b") _ eq_refl eq_refl));
      [reflexivity | reflexivity |].
    right. eexists _, "pkg". repeat split. discriminate.
  - apply (proj2 (is_rlang_call_namespace (only_sym "b")
                    (Rf_lcons (SYM "b") R_NilValue) _ eq_refl eq_refl)).
    reflexivity.
Defined.

(** C5, as stated, at the recognizer [is_symbolic] of the same file and the
    call [pkg$b()]: the prefix is [$], not [::], and the call is accepted,
    because [is_symbolic] accepts the qualifying head. *)
Lemma foreign_prefix_accepted_through_head :
  qualifying (Rf_lcons (SYM "$")
                (Rf_cons (SYM "pkg") (Rf_cons (SYM "b") R_NilValue))) = true /\
  head_is (Rf_lcons (SYM "$")
             (Rf_cons (SYM "pkg") (Rf_cons (SYM "b") R_NilValue))) "::" = false /\
  is_symbolic (SYM "b") = 1 /\
  is_rlang_call (qualified_call "$" "pkg" "b") (Some is_symbolic) = Ok 1 /\
  is_rlang_call (qualified_call "$" "pkg" "b") (Some is_symbolic) <> Ok 0.
Proof. repeat split. discriminate. Qed.

(* ------------------------------------------------------------------------- *)
(** ** Boolean coercion *)

Lemma is_true_LGL (a : attributes) (v : list Z) :
  is_true (LGL a v) =
  if Z.of_nat (List.length v) =? 1
  then value <- index v 0 ;; Ok (if value =? NA_LOGICAL then 0 else value)
  else Raise "`x` must be a boolean".
Proof.
  unfold is_true, or_else.
  cbn [TYPEOF SEXPTYPE_eqb negb bind Rf_length LOGICAL_ELT].
  destruct (Z.of_nat (List.length v) =? 1); reflexivity.
Qed.

(** C6. [is_true] fails with the error [`x` must be a boolean] on every
    node that is not a logical vector of length one, in particular on every
    real vector; on a length-one logical holding [NA_LOGICAL] it returns 0
    instead of failing, and on any other length-one logical it returns the
    stored value. *)
Theorem is_true_coercion :
  (forall x, scalar_logical x = false ->
             is_true x = Raise "`x` must be a boolean") /\
  (forall a v, is_true (REAL a v) = Raise "`x` must be a boolean") /\
  (forall a, is_true (LGL a [NA_LOGICAL]) = Ok 0) /\
  (forall a v, v <> NA_LOGICAL -> is_true (LGL a [v]) = Ok v).
Proof.
  repeat split.
  - intros x Hx.
    destruct x as [| | | [|] | a v | | | | | | |]; try reflexivity.
    rewrite is_true_LGL.
    destruct (Z.eqb_spec (Z.of_nat (List.length v)) 1) as [E | _];
      [| reflexivity].
    destruct v as [| b [| c v]]; try discriminate; simpl in E; lia.
  - intros a v Hv. rewrite is_true_LGL.
    change (Z.of_nat (List.length [v]) =? 1) with true.
    change (index [v] 0) with (Ok v). cbn [bind].
    apply Z.eqb_neq in Hv. now rewrite Hv.
Qed.

Lemma is_true_coercion_witness :
  is_true (LGL [] [1; 0]) = Raise "`x` must be a boolean" /\
  is_true (LGL [] [1]) = Ok 1.
Proof.
  split.
  - apply (proj1 is_true_coercion). reflexivity.
  - apply (proj2 (proj2 (proj2 is_true_coercion))). discriminate.
Defined.

(* ------------------------------------------------------------------------- *)
(** ** Totality of the matchers *)

Lemma is_sym_returns (x : SEXP) (f : string) : returns (is_sym x f).
Proof.
  destruct x as [| n | | [|] | | | | | | | |];
    try (eexists; reflexivity).
Qed.

Lemma well_formed_CONS (k : cons_kind) (a : attributes) (car t d : SEXP) :
  well_formed (CONS k a car t d) = true ->
  well_formed car = true /\ is_cell d = true /\ well_formed d = true.
Proof.
  simpl. intros H.
  apply andb_true_iff in H as [H Hd]. apply andb_true_iff in H as [Hc Hi].
  now repeat split.
Qed.

Lemma CAR_cell (x : SEXP) : is_cell x = true -> returns (CAR x).
Proof. destruct x; try discriminate; intros _; eexists; reflexivity. Qed.

Lemma CADR_cell (x : SEXP) :
  is_cell x = true -> well_formed x = true -> returns (CADR x).
Proof.
  destruct x as [| | | k a car t d | | | | | | | |]; try discriminate.
  - intros _ _. now exists R_NilValue.
  - intros _ H. apply well_formed_CONS in H as (_ & Hd & _).
    unfold CADR. simpl. now apply CAR_cell.
Qed.

Lemma is_prefixed_call_returns (x : SEXP) (p : sym_predicate_t) :
  well_formed x = true -> returns (is_prefixed_call x p).
Proof.
  intros Hwf.
  destruct x as [| | | [|] a head t d | | | | | | | |];
    try (now exists 0).
  apply well_formed_CONS in Hwf as (Hhead & _ & _).
  destruct p as [p |].
  - rewrite (is_prefixed_call_unfold (CONS Language a head t d) head p
               eq_refl eq_refl).
    destruct (qualifying head) eqn:Hq; [| now exists 0].
    destruct (qualifying_inv _ Hq) as (k & a' & q & t' & d' & ->).
    apply well_formed_CONS in Hhead as (_ & Hcell & Hd').
    cbn [CDR bind].
    destruct (CADR_cell _ Hcell Hd') as (s & ->). now exists (p s).
  - unfold is_prefixed_call. cbn [TYPEOF SEXPTYPE_eqb negb CAR bind].
    rewrite qualifying_lang. cbn [bind].
    destruct (qualifying head); [now exists 1 | now exists 0].
Qed.

Lemma is_rlang_prefixed_returns (x : SEXP) (p : SEXP -> Z) :
  well_formed x = true -> returns (is_rlang_prefixed x (Some p)).
Proof.
  intros Hwf.
  destruct x as [| | | [|] a head t d | | | | | | | |];
    try (now exists 0).
  apply well_formed_CONS in Hwf as (Hhead & _ & _).
  rewrite (is_rlang_prefixed_unfold (CONS Language a head t d) head p
               eq_refl eq_refl).
  destruct (head_is head "::") eqn:Hq; [| now exists 0].
  apply head_is_inv in Hq as (k & a' & t' & d' & ->).
  apply well_formed_CONS in Hhead as (_ & Hcell & Hd').
  cbn [CDR bind].
  destruct (CAR_cell _ Hcell) as (ns & ->). cbn [bind].
  destruct (is_sym_returns ns "rlang") as (z & ->). cbn [bind].
  destruct (bool_of_int z); [| now exists 0].
  destruct (CADR_cell _ Hcell Hd') as (s & ->). now exists (p s).
Qed.

(** C7. The call matchers [is_lang], [is_prefixed_call] (with or without a
    recognizer), [is_any_call] and [is_rlang_call] are total queries: on a
    node that is not a call they return false ([is_lang], which also looks
    at pairlists, on a node that is neither a call nor a pairlist), and on a
    well-formed node they always return, never raising an error. *)
Theorem matchers_total (x : SEXP) (f : string) (r : SEXP -> Z) :
  (TYPEOF x <> LANGSXP ->
   (TYPEOF x <> LISTSXP -> is_lang x f = Ok false) /\
   is_prefixed_call x None = Ok 0 /\
   is_prefixed_call x (Some r) = Ok 0 /\
   is_any_call x (Some r) = Ok 0 /\
   is_rlang_call x (Some r) = Ok 0) /\
  (well_formed x = true ->
   returns (is_lang x f) /\
   returns (is_prefixed_call x None) /\
   returns (is_prefixed_call x (Some r)) /\
   returns (is_any_call x (Some r)) /\
   returns (is_rlang_call x (Some r))).
Proof.
  split.
  - intros Hl.
    destruct x as [| | | [|] | | | | | | | |];
      try contradiction; repeat split; try reflexivity;
      intros Hp; contradiction.
  - intros Hwf. split; [| split; [| split; [| split]]].
    + rewrite is_lang_head_is. now eexists.
    + now apply is_prefixed_call_returns.
    + now apply is_prefixed_call_returns.
    + destruct x as [| | | [|] a head t d | | | | | | | |];
        try (now exists 0).
      rewrite (is_any_call_unfold (CONS Language a head t d) head r
               eq_refl eq_refl).
      destruct (bool_of_int (r head)); [now exists 1 |].
      destruct (is_prefixed_call_returns _ (Some r) Hwf) as (q & ->).
      now eexists.
    + destruct x as [| | | [|] a head t d | | | | | | | |];
        try (now exists 0).
      rewrite (is_rlang_call_unfold (CONS Language a head t d) head r
               eq_refl eq_refl).
      destruct (bool_of_int (r head)); [now exists 1 |].
      destruct (is_rlang_prefixed_returns _ r Hwf) as (q & ->).
      now eexists.
Qed.

Lemma matchers_total_witness :
  is_lang (INT [] [1]) "f" = Ok false /\
  is_any_call (INT [] [1]) (Some (only_sym "b")) = Ok 0 /\
  returns (is_rlang_call (qualified_call "::" "rlang" "b")
                         (Some (only_sym "b"))).
Proof.
  split; [| split].
  - apply (proj1 (matchers_total (INT [] [1]) "f" (only_sym "b")));
      discriminate.
  - apply (proj1 (matchers_total (INT [] [1]) "f" (only_sym "b"))).
    discriminate.
  - apply (proj2 (matchers_total (qualified_call "::" "rlang" "b") "f"
                    (only_sym "b"))).
    reflexivity.
Defined.

(** C10. On a call whose head is a qualifying call ([$], [@], [::] or
    [:::]) with fewer than two sub-arguments, [is_prefixed_call] with a
    recognizer reads nothing out of range and raises nothing: the second
    sub-argument of the short list is [R_NilValue], the recognizer is applied
    to it, and its answer is returned. *)
Theorem is_prefixed_call_short_head
        (r : SEXP -> Z) (x head : SEXP) (ops : list SEXP) :
  TYPEOF x = LANGSXP -> CAR x = Ok head ->
  qualifying head = true ->
  operands head = Ok ops -> (List.length ops < 2)%nat ->
  (args <- CDAR x ;; CADR args) = Ok R_NilValue /\
  is_prefixed_call x (Some r) = Ok (r R_NilValue).
Proof.
  intros Hx Hcar Hq Hops Hlen.
  rewrite (is_prefixed_call_unfold _ _ _ Hx Hcar). rewrite Hq.
  unfold CDAR. rewrite Hcar. cbn [bind].
  destruct (qualifying_inv _ Hq) as (k & a & q & t & d & ->).
  destruct (operands_inv _ _ _ _ _ _ Hops) as (l & Hl & Hm & _).
  cbn [CDR bind].
  destruct ops as [| o ops].
  - rewrite (cells_map_nil _ _ Hl Hm). now split.
  - destruct (cells_map_cons _ _ _ _ Hl Hm)
      as (k' & a' & t' & d' & l' & -> & Hl' & Hm').
    destruct ops as [| o' ops]; [| simpl in Hlen; lia].
    rewrite (cells_map_nil _ _ Hl' Hm'). now split.
Qed.

Lemma is_prefixed_call_short_head_witness :
  is_prefixed_call short_qualified_call (Some (only_sym "b")) = Ok 0.
Proof.
  apply (is_prefixed_call_short_head (only_sym "b") short_qualified_call
           (Rf_lcons (SYM "::") (Rf_cons (SYM "pkg") R_NilValue))
           [SYM "pkg"] eq_refl eq_refl eq_refl eq_refl).
  simpl. lia.
Defined.

(* ------------------------------------------------------------------------- *)
(** ** Names *)

(** C8. When [names] returns the absent marker [R_NilValue], [has_name_at]
    is false at every index; when it returns a character vector and the
    index is in range, [has_name_at] is false if the entry at the index is
    the empty string and true if it is a non-empty string. *)
Theorem has_name_at_names (x : SEXP) (i : Z) :
  (names x = Ok R_NilValue -> has_name_at x i = Ok false) /\
  (forall a v c s,
      names x = Ok (STR a v) ->
      0 <= i < Z.of_nat (List.length v) ->
      nth_error v (Z.to_nat i) = Some c ->
      CHAR (CHR c) = Ok s ->
      has_name_at x i = Ok (negb (String.eqb s EmptyString))).
Proof.
  unfold has_name_at, and_also. split.
  - intros ->. reflexivity.
  - intros a v c s -> Hi Hnth Hs.
    cbn [bind is_character TYPEOF SEXPTYPE_eqb STRING_ELT].
    unfold index.
    destruct (Z.leb_spec 0 i); [| lia].
    destruct (Z.ltb_spec i (Z.of_nat (List.length v))); [| lia].
    cbn [andb]. rewrite Hnth. cbn [bind].
    unfold is_str_empty. rewrite Hs. cbn [bind].
    now rewrite strcmp_zero.
Qed.

Lemma has_name_at_names_witness :
  has_name_at (INT [] [1; 2]) 5 = Ok false /\
  has_name_at named_vector 0 = Ok true /\
  has_name_at named_vector 1 = Ok false.
Proof.
  split; [| split].
  - apply (proj1 (has_name_at_names (INT [] [1; 2]) 5)). reflexivity.
  - apply (proj2 (has_name_at_names named_vector 0)
             [] [mkChar "a"; mkChar EmptyString] (mkChar "a") "a");
      [reflexivity | simpl; lia | reflexivity | reflexivity].
  - apply (proj2 (has_name_at_names named_vector 1)
             [] [mkChar "a"; mkChar EmptyString] (mkChar EmptyString)
             EmptyString);
      [reflexivity | simpl; lia | reflexivity | reflexivity].
Defined.

Lemma lookup_put_same (n : string) (v : SEXP) (a : attributes) :
  lookupAttrib n (putAttrib n v a) = v.
Proof.
  induction a as [| [t w] a IH]; simpl.
  - now rewrite String.eqb_refl.
  - destruct (String.eqb t n) eqn:E; simpl; now rewrite E.
Qed.

Lemma lookup_put_other (n m : string) (v : SEXP) (a : attributes) :
  n <> m -> lookupAttrib m (putAttrib n v a) = lookupAttrib m a.
Proof.
  intros Hne. induction a as [| [t w] a IH]; simpl.
  - apply String.eqb_neq in Hne. now rewrite Hne.
  - destruct (String.eqb t n) eqn:E; simpl.
    + apply String.eqb_eq in E. subst t.
      apply String.eqb_neq in Hne. now rewrite Hne.
    + now rewrite IH.
Qed.

Lemma putAttrib_cons (n : string) (v : SEXP) (a : attributes) :
  exists e a', putAttrib n v a = e :: a'.
Proof.
  destruct a as [| [t w] a]; simpl; [now eexists _, _ |].
  destruct (String.eqb t n); now eexists _, _.
Qed.

Lemma names_of_vector (y : SEXP) :
  isVector y = true -> isOneDimensionalArray y = false ->
  ATTRIB y <> [] ->
  names y = Ok (lookupAttrib "names" (ATTRIB y)).
Proof.
  intros Hv Hd Ha. unfold names, Rf_getAttrib, R_NamesSymbol.
  destruct y as [| | | [|] | a v | a v | a v | a v | a v | a v | a v |];
    try discriminate;
    cbn [ATTRIB TYPEOF] in *;
    (destruct a as [| e a]; [contradiction |]);
    cbn [String.eqb Ascii.eqb Bool.eqb]; unfold getAttrib0;
    rewrite Hd; reflexivity.
Qed.

Lemma set_names_vector (x : SEXP) (a : attributes) (v : list charsxp) :
  isVector x = true -> isOneDimensionalArray x = false ->
  Rf_length x = Ok (Z.of_nat (List.length v)) ->
  exists y,
    set_names x (STR a v) = Ok y /\
    SET_ATTRIB x (putAttrib "names" (STR a v) (ATTRIB x)) = Ok y.
Proof.
  intros Hv Hd Hlen.
  unfold set_names, Rf_setAttrib, R_NamesSymbol.
  assert (E : forall n, (match x with
                    | R_NilValue => Raise "attempt to set an attribute on NULL"
                    | _ => n
                    end : result (SEXP * SEXP)) = n)
    by (intros n; destruct x; try reflexivity; discriminate).
  rewrite E. cbn [String.eqb Ascii.eqb Bool.eqb].
  unfold namesgets. rewrite Hlen. cbn [bind].
  rewrite Z.ltb_irrefl. cbn [bind Rf_length].
  rewrite Hv, Z.eqb_refl, Hd. cbn [orb negb].
  assert (Hl : isList x || isLanguage x = false)
    by (destruct x as [| | | [|] | | | | | | | |]; try discriminate;
        reflexivity).
  rewrite Hl.
  assert (Hi : installAttrib x "names" (STR a v)
               = SET_ATTRIB x (putAttrib "names" (STR a v) (ATTRIB x)))
    by (destruct x; try discriminate; reflexivity).
  rewrite Hi.
  assert (Hs : returns (SET_ATTRIB x (putAttrib "names" (STR a v) (ATTRIB x))))
    by (destruct x; try discriminate; eexists; reflexivity).
  destruct Hs as (y & Hy). rewrite Hy. now exists y.
Qed.

Lemma SET_ATTRIB_vector (x y : SEXP) (a : attributes) :
  isVector x = true -> SET_ATTRIB x a = Ok y ->
  isVector y = true /\ ATTRIB y = a.
Proof.
  destruct x as [| | | [|] | | | | | | | |]; try discriminate;
    intros _ [= <-]; now split.
Qed.


Lemma tag_of_name_fits (c : charsxp) :
  name_fits c = true -> tag_of_name c = Ok (tag_for c).
Proof.
  destruct c as [| [| ch s]]; try reflexivity.
  unfold name_fits, tag_of_name, installTrChar, Rf_install_checked.
  cbn [Rf_translateChar CHAR bind String.eqb tag_for].
  intros H. apply Z.leb_le in H.
  destruct (Z.ltb_spec 10000 (Z.of_nat (String.length (String ch s))));
    [lia | reflexivity].
Qed.


Lemma cells_set_tags (x : SEXP) :
  forall (l : list (SEXP * SEXP)) (w : list charsxp),
    cells x = Ok l -> List.length l = List.length w ->
    forallb name_fits w = true ->
    exists y, set_tags x w = Ok y /\
              cells y = Ok (combine (map fst l) (map tag_for w)) /\
              TYPEOF y = TYPEOF x /\ ATTRIB y = ATTRIB x.
Proof.
  induction x as [| | | k a car _ t _ d IHd | | | | | | | |];
    intros l w Hl Hlen Hfit; try discriminate.
  - injection Hl as <-. destruct w; [| discriminate].
    exists R_NilValue. now repeat split.
  - simpl in Hl. apply bind_Ok_inv in Hl as (r & Hr & Hl).
    injection Hl as <-.
    destruct w as [| c w]; [discriminate |].
    simpl in Hlen. injection Hlen as Hlen.
    cbn [forallb] in Hfit. apply andb_true_iff in Hfit as (Hc & Hw).
    destruct (IHd r w Hr Hlen Hw) as (y & Hy & Hcells & _).
    cbn [set_tags]. rewrite (tag_of_name_fits c Hc), Hy. cbn [bind].
    eexists. split; [reflexivity |].
    cbn [cells]. rewrite Hcells. now repeat split.
Qed.



Lemma set_names_unfold (x : SEXP) (a : attributes) (v : list charsxp) :
  x <> R_NilValue ->
  Rf_length x = Ok (Z.of_nat (List.length v)) ->
  set_names x (STR a v) =
  if isVector x || isList x || isLanguage x then
    if isOneDimensionalArray x then dimnamesgets_names x (STR a v)
    else if isList x || isLanguage x then set_tags x v
    else installAttrib x "names" (STR a v)
  else Raise "names() applied to a non-vector".
Proof.
  intros Hx Hlen. unfold set_names, Rf_setAttrib, R_NamesSymbol.
  assert (E : forall m, (match x with
                    | R_NilValue => Raise "attempt to set an attribute on NULL"
                    | _ => m
                    end : result (SEXP * SEXP)) = m)
    by (intros m; destruct x; try reflexivity; contradiction).
  rewrite E. cbn [String.eqb Ascii.eqb Bool.eqb].
  unfold namesgets. rewrite Hlen. cbn [bind].
  rewrite Z.ltb_irrefl. cbn [bind Rf_length].
  rewrite Z.eqb_refl. cbn [negb].
  destruct (isVector x || isList x || isLanguage x)%bool; [| reflexivity].
  destruct (isOneDimensionalArray x).
  { destruct (dimnamesgets_names x (STR a v)); reflexivity. }
  destruct (isList x || isLanguage x)%bool.
  { destruct (set_tags x v); reflexivity. }
  destruct (installAttrib x "names" (STR a v)); reflexivity.
Qed.









(* ------------------------------------------------------------------------- *)
(** ** Further properties: symbols and node kinds *)

(** X1. [is_sym] never fails and answers 1 on the symbol whose print name
    is the string asked for, and 0 on every other node, a symbol of another
    name included. *)
Theorem is_sym_iff (x : SEXP) (s : string) :
  (is_sym x s = Ok 1 \/ is_sym x s = Ok 0) /\
  (is_sym x s = Ok 1 <-> x = SYM s).
Proof.
  destruct x as [| n | | [|] | | | | | | | |];
    try (split; [right; reflexivity | split; discriminate]).
  rewrite is_sym_SYM.
  destruct (String.eqb_spec n s) as [-> | Hne]; simpl.
  - split; [now left | now split].
  - split; [now right |]. split; [discriminate | congruence].
Qed.

Lemma is_sym_iff_witness :
  is_sym (SYM "foo") "foo" = Ok 1 /\ SYM "~" = SYM "~".
Proof.
  split.
  - apply (proj2 (proj2 (is_sym_iff (SYM "foo") "foo"))). reflexivity.
  - apply (proj1 (proj2 (is_sym_iff (SYM "~") "~"))). reflexivity.
Defined.

(** X2. [is_lang] never fails, on any node.  It answers true exactly on a
    cons cell, call or pairlist, whose car is the symbol asked for; on a
    symbol, whose first slot it reads, it answers false. *)
Theorem is_lang_iff (x : SEXP) (f : string) :
  returns (is_lang x f) /\
  (is_lang x f = Ok true <-> exists k a t d, x = CONS k a (SYM f) t d) /\
  (TYPEOF x = SYMSXP -> is_lang x f = Ok false).
Proof.
  rewrite is_lang_head_is. repeat split.
  - now eexists.
  - intros [= H]. now apply head_is_inv.
  - intros (k & a & t & d & ->). simpl. now rewrite String.eqb_refl.
  - destruct x as [| | | [|] | | | | | | | |]; try discriminate. reflexivity.
Qed.

Lemma is_lang_iff_witness :
  is_lang (CONS Pairlist [] (SYM "f") R_NilValue R_NilValue) "f" = Ok true /\
  (exists k a t d, call_f_a = CONS k a (SYM "f") t d) /\
  is_lang (SYM "f") "f" = Ok false.
Proof.
  split; [| split].
  - apply (proj2 (proj1 (proj2 (is_lang_iff
             (CONS Pairlist [] (SYM "f") R_NilValue R_NilValue) "f")))).
    now eexists _, _, _, _.
  - apply (proj1 (proj1 (proj2 (is_lang_iff call_f_a "f")))). reflexivity.
  - apply (proj2 (proj2 (is_lang_iff (SYM "f") "f"))). reflexivity.
Defined.

(** X3. The vector kinds: [is_vector] holds exactly when [is_atomic] or
    [is_list] does, and never both of those; no vector is symbolic, and
    [NULL] is neither a vector nor symbolic. *)
Theorem classifiers_consistent (x : SEXP) :
  is_vector x = (is_atomic x || is_list x)%bool /\
  (is_atomic x && is_list x)%bool = false /\
  (is_vector x = true -> is_symbolic x = 0) /\
  (is_null x = true -> is_vector x = false /\ is_symbolic x = 0).
Proof.
  destruct x as [| | | [|] | | | | | | | |];
    repeat split; try reflexivity; discriminate.
Qed.

Lemma classifiers_consistent_witness :
  is_symbolic (VEC [] [R_NilValue]) = 0 /\
  (is_vector R_NilValue = false /\ is_symbolic R_NilValue = 0).
Proof.
  split.
  - apply (proj1 (proj2 (proj2 (classifiers_consistent (VEC [] [R_NilValue]))))).
    reflexivity.
  - apply (proj2 (proj2 (proj2 (classifiers_consistent R_NilValue)))).
    reflexivity.
Defined.

Ltac by_length_one v :=
  destruct v as [| ?b [| ?c v]]; split; try discriminate; try reflexivity;
  change (Z.of_nat (List.length (b :: c :: v)) =? 1)
    with (Z.of_nat (S (S (List.length v))) =? 1);
  destruct (Z.eqb_spec (Z.of_nat (S (S (List.length v)))) 1);
  [lia | discriminate].

(** X4. [is_scalar_atomic] answers true exactly on an atomic vector with
    one element: a list of length one, a symbol (whose length is 1) and a
    call are not scalar atomics. *)
Theorem is_scalar_atomic_iff (x : SEXP) :
  is_scalar_atomic x = Ok true <-> scalar_atomic_shape x = true.
Proof.
  unfold is_scalar_atomic, and_also.
  destruct x as [| | c | k a car t d | a v | a v | a v | a v | a v | a v
                 | a v | a id frame];
    cbn [Rf_length bind];
    try (split; discriminate).
  1: { destruct (CHAR (CHR c)) as [s | |]; cbn [bind];
         [destruct (_ =? 1) |..]; split; discriminate. }
  1: { destruct (cells (CONS k a car t d)) as [l | |]; cbn [bind];
         [destruct (_ =? 1); destruct k |..]; split; discriminate. }
  8: { destruct (Z.of_nat (List.length frame) =? 1); split; discriminate. }
  all: by_length_one v.
Qed.

Lemma is_scalar_atomic_iff_witness :
  is_scalar_atomic (REAL [] [0]) = Ok true /\
  scalar_atomic_shape (STR [] [NA_STRING]) = true.
Proof.
  split.
  - apply (proj2 (is_scalar_atomic_iff (REAL [] [0]))). reflexivity.
  - apply (proj1 (is_scalar_atomic_iff (STR [] [NA_STRING]))). reflexivity.
Defined.

Lemma is_true_raises (x : SEXP) :
  scalar_logical x = false -> is_true x = Raise "`x` must be a boolean".
Proof.
  intros Hx.
  destruct x as [| | | [|] | a v | | | | | | |]; try reflexivity.
  rewrite is_true_LGL.
  destruct (Z.eqb_spec (Z.of_nat (List.length v)) 1) as [E | _];
    [| reflexivity].
  destruct v as [| b [| c v]]; try discriminate; simpl in E; lia.
Qed.

(** X5. Whatever [is_true] returns, it is not the missing value
    [NA_LOGICAL], and the node it was given is a scalar atomic. *)
Theorem is_true_never_NA (x : SEXP) (v : Z) :
  is_true x = Ok v ->
  v <> NA_LOGICAL /\ is_scalar_atomic x = Ok true.
Proof.
  intros H.
  destruct (scalar_logical x) eqn:Hs.
  - destruct x as [| | | | a w | | | | | | |]; try discriminate.
    destruct w as [| b [| c w]]; try discriminate.
    split; [| reflexivity].
    rewrite is_true_LGL in H.
    change (Z.of_nat (List.length [b]) =? 1) with true in H.
    change (index [b] 0) with (Ok b) in H. cbn [bind] in H.
    destruct (Z.eqb_spec b NA_LOGICAL) as [-> | Hb].
    + injection H as <-. discriminate.
    + injection H as <-. exact Hb.
  - rewrite (is_true_raises x Hs) in H. discriminate.
Qed.

Lemma is_true_never_NA_witness :
  0 <> NA_LOGICAL /\ is_scalar_atomic (LGL [] [NA_LOGICAL]) = Ok true.
Proof. apply (is_true_never_NA (LGL [] [NA_LOGICAL]) 0). reflexivity. Defined.

(* ------------------------------------------------------------------------- *)
(** ** Further properties: lengths and the last cell *)

Lemma cells_CONS_length (k : cons_kind) (a : attributes) (car t d : SEXP)
      (l : list (SEXP * SEXP)) :
  cells (CONS k a car t d) = Ok l -> exists c l', l = c :: l'.
Proof.
  simpl. intros H. apply bind_Ok_inv in H as (r & _ & H).
  injection H as <-. now eexists _, _.
Qed.

(** X6. [is_empty] answers true exactly on [NULL], on a vector without
    elements, on the CHARSXP of the empty string and on an environment
    whose frame holds no binding; so whatever [is_null] accepts is empty, and a call, a pairlist
    or a symbol never is. *)
Theorem is_empty_iff (x : SEXP) :
  (is_empty x = Ok true <-> empty_shape x = true) /\
  (is_null x = true -> is_empty x = Ok true) /\
  (is_symbolic x <> 0 \/ TYPEOF x = LISTSXP -> is_empty x <> Ok true).
Proof.
  assert (Hiff : is_empty x = Ok true <-> empty_shape x = true).
  { unfold is_empty.
    destruct x as [| | c | k a car t d | a v | a v | a v | a v | a v | a v
                   | a v | a id v];
      cbn [Rf_length bind];
      try (split; [discriminate | discriminate]);
      try (split; reflexivity).
    1: { destruct c as [| [| ch s]]; split; try discriminate;
           reflexivity. }
    1: { split; [| discriminate].
         destruct (cells (CONS k a car t d)) as [l | |] eqn:E;
           cbn [bind]; try discriminate.
         destruct (cells_CONS_length _ _ _ _ _ _ E) as (c & l' & ->).
         change (Z.of_nat (List.length (c :: l')) =? 0)
           with (Z.of_nat (S (List.length l')) =? 0).
         destruct (Z.eqb_spec (Z.of_nat (S (List.length l'))) 0);
           [lia | discriminate]. }
    all: destruct v; split; try discriminate; reflexivity. }
  split; [exact Hiff | split].
  - destruct x; try discriminate. reflexivity.
  - intros Hk He. apply Hiff in He.
    destruct x as [| | | [|] | | | | | | | |]; try discriminate;
      destruct Hk as [Hk | Hk]; try discriminate; now apply Hk.
Qed.

Lemma is_empty_iff_witness :
  is_empty (STR [] []) = Ok true /\
  is_empty R_NilValue = Ok true /\
  is_empty call_f_a <> Ok true.
Proof.
  split; [| split].
  - apply (proj2 (proj1 (is_empty_iff (STR [] [])))). reflexivity.
  - apply (proj1 (proj2 (is_empty_iff R_NilValue))). reflexivity.
  - apply (proj2 (proj2 (is_empty_iff call_f_a))). left. discriminate.
Defined.

(** X7. Whatever [rlang_length] returns is an integer vector of one
    element, the length of the node, without attributes: a scalar atomic
    that is not empty.  On a call that element is one more than the number
    of operands, the head being counted. *)
Theorem rlang_length_scalar (x : SEXP) :
  (forall y, rlang_length x = Ok y ->
             exists n, Rf_length x = Ok n /\ y = INT [] [n] /\
                       TYPEOF y = INTSXP /\
                       is_scalar_atomic y = Ok true /\
                       is_empty y = Ok false) /\
  (forall ops, TYPEOF x = LANGSXP -> operands x = Ok ops ->
               rlang_length x
               = Ok (INT [] [1 + Z.of_nat (List.length ops)])).
Proof.
  unfold rlang_length. split.
  - intros y H. apply bind_Ok_inv in H as (n & Hn & H).
    injection H as <-. exists n. now repeat split.
  - intros ops Hx Hops.
    destruct x as [| | | [|] a car t d | | | | | | | |]; try discriminate.
    destruct (operands_inv _ _ _ _ _ _ Hops) as (l & _ & _ & ->).
    cbn [bind]. unfold Rf_ScalarInteger. do 3 f_equal. lia.
Qed.

Lemma rlang_length_scalar_witness :
  (exists n, Rf_length (REAL [] [1; 2; 3]) = Ok n /\
             INT [] [3] = INT [] [n] /\
             TYPEOF (INT [] [3]) = INTSXP /\
             is_scalar_atomic (INT [] [3]) = Ok true /\
             is_empty (INT [] [3]) = Ok false) /\
  rlang_length formula2 = Ok (INT [] [3]).
Proof.
  split.
  - apply (proj1 (rlang_length_scalar (REAL [] [1; 2; 3]))). reflexivity.
  - apply (proj2 (rlang_length_scalar formula2) [SYM "y"; SYM "x"]);
      reflexivity.
Defined.

Lemma last_cons_cells (x : SEXP) :
  forall cs e, cells x = Ok (cs ++ [e])%list ->
    exists k a d, last_cons x = Ok (CONS k a (fst e) (snd e) d)
                  /\ d = R_NilValue.
Proof.
  induction x as [| | | k a car _ t _ d IHd | | | | | | | |];
    intros cs e H; try discriminate.
  - injection H as H. now destruct cs.
  - simpl in H. apply bind_Ok_inv in H as (r & Hr & H). injection H as H.
    destruct cs as [| e' cs]; simpl in H.
    + injection H as He Hnil. subst e r.
      destruct d; try discriminate.
      * now exists k, a, R_NilValue.
      * simpl in Hr. apply bind_Ok_inv in Hr as (? & _ & ?). discriminate.
    + injection H as _ Hr'. subst r.
      destruct (IHd cs e Hr) as (k' & a' & d' & Hlast & ->).
      exists k', a', R_NilValue. split; trivial.
      destruct d; try discriminate; exact Hlast.
Qed.

(** X8. [last_cons] on [NULL] is [NULL].  On a pairlist or call with a
    proper chain of cells it returns the last cell: a cell with the car and
    the tag of the last element and with [NULL] as its cdr; and applied to
    the cell it returned, it returns that cell again. *)
Theorem last_cons_last (x : SEXP) :
  last_cons R_NilValue = Ok R_NilValue /\
  (forall l c, cells x = Ok (l ++ [c])%list ->
     exists y, last_cons x = Ok y /\
               CAR y = Ok (fst c) /\ TAG y = Ok (snd c) /\
               CDR y = Ok R_NilValue /\
               last_cons y = Ok y).
Proof.
  split; [reflexivity |].
  intros l c H.
  destruct (last_cons_cells x l c H) as (k & a & d & Hlast & ->).
  eexists. split; [exact Hlast |]. now repeat split.
Qed.

Lemma last_cons_last_witness :
  exists y, last_cons call_f_a_kb = Ok y /\
            CAR y = Ok (SYM "b") /\ TAG y = Ok (SYM "k") /\
            CDR y = Ok R_NilValue /\ last_cons y = Ok y.
Proof.
  apply (proj2 (last_cons_last call_f_a_kb)
           [(SYM "f", R_NilValue); (SYM "a", R_NilValue)] (SYM "b", SYM "k")).
  reflexivity.
Defined.

(* ------------------------------------------------------------------------- *)
(** ** Further properties: formulas *)

Lemma formula_shaped_lang (x : SEXP) :
  formula_shaped x = true <->
  TYPEOF x = LANGSXP /\ (head_is x "~" = true \/ head_is x ":=" = true).
Proof.
  destruct x as [| | | [|] a car t d | | | | | | | |];
    try (split; [discriminate | intros [H _]; discriminate]).
  destruct car;
    try (split; [discriminate | intros [_ [H | H]]; discriminate]).
  simpl. rewrite orb_true_iff. split; [now split | now intros [_ H]].
Qed.

(** X9. [is_formula] never fails and does not look at the operands: it
    answers true exactly on a call (not a pairlist) for which [is_lang]
    answers true with [~] or with [:=]. *)
Theorem is_formula_iff (x : SEXP) :
  returns (is_formula x) /\
  (is_formula x = Ok true <->
   TYPEOF x = LANGSXP /\
   (is_lang x "~" = Ok true \/ is_lang x ":=" = Ok true)).
Proof.
  rewrite is_formula_shape, !is_lang_head_is. split; [now eexists |].
  split.
  - intros [= H]. apply formula_shaped_lang in H as (Hx & [H | H]);
      rewrite H; auto.
  - intros (Hx & H). f_equal. apply formula_shaped_lang. split; trivial.
    destruct H as [[= H] | [= H]]; auto.
Qed.

Lemma is_formula_iff_witness :
  is_formula formula2 = Ok true /\
  (TYPEOF formula0 = LANGSXP /\
   (is_lang formula0 "~" = Ok true \/ is_lang formula0 ":=" = Ok true)).
Proof.
  split.
  - apply (proj2 (proj2 (is_formula_iff formula2))).
    split; [reflexivity | right; reflexivity].
  - apply (proj1 (proj2 (is_formula_iff formula0))). reflexivity.
Defined.

(** X10. [is_fpromise] answers false on every node that is not a formula,
    without reading its cdr; on a formula it answers whether there is at
    most one trailing operand. *)
Theorem is_fpromise_iff (x : SEXP) :
  (is_formula x = Ok false -> is_fpromise x = Ok false) /\
  (forall ops, is_formula x = Ok true -> operands x = Ok ops ->
               is_fpromise x = Ok (Nat.leb (List.length ops) 1)).
Proof.
  split.
  - intros H. unfold is_fpromise, and_also. now rewrite H.
  - intros ops Hf Hops. now apply is_fpromise_at_most_one.
Qed.

Lemma is_fpromise_iff_witness :
  is_fpromise (REAL [] [0]) = Ok false /\
  is_fpromise formula1 = Ok true /\
  is_fpromise formula2 = Ok false.
Proof.
  split; [| split].
  - apply (proj1 (is_fpromise_iff (REAL [] [0]))). reflexivity.
  - apply (proj2 (is_fpromise_iff formula1) [SYM "x"]); reflexivity.
  - apply (proj2 (is_fpromise_iff formula2) [SYM "y"; SYM "x"]); reflexivity.
Defined.

(** X11. On every node that [is_formula] does not accept, [f_rhs_],
    [f_lhs_] and [f_env_] all raise the error [`x` is not a formula],
    whatever the node carries. *)
Theorem formula_accessors_reject (x : SEXP) :
  is_formula x <> Ok true ->
  f_rhs_ x = Raise "`x` is not a formula" /\
  f_lhs_ x = Raise "`x` is not a formula" /\
  f_env_ x = Raise "`x` is not a formula".
Proof.
  intros H. unfold f_rhs_, f_lhs_, f_env_.
  rewrite is_formula_shape in *.
  destruct (formula_shaped x); [contradiction | now repeat split].
Qed.

Lemma formula_accessors_reject_witness :
  f_rhs_ (CONS Pairlist [] (SYM "~") R_NilValue R_NilValue)
  = Raise "`x` is not a formula" /\
  f_lhs_ (CONS Pairlist [] (SYM "~") R_NilValue R_NilValue)
  = Raise "`x` is not a formula" /\
  f_env_ (CONS Pairlist [] (SYM "~") R_NilValue R_NilValue)
  = Raise "`x` is not a formula".
Proof.
  apply (formula_accessors_reject
           (CONS Pairlist [] (SYM "~") R_NilValue R_NilValue)).
  discriminate.
Defined.

(** X12. On a formula, [f_env_] does not depend on the operands: it
    returns what is stored under [.Environment] among the attributes of the
    node, and [NULL] when nothing is, also on a formula that [f_rhs_]
    rejects for its operand count. *)
Theorem f_env_attribute (f : SEXP) :
  is_formula f = Ok true ->
  f_env_ f = Ok (lookupAttrib ".Environment" (ATTRIB f)).
Proof.
  intros Hf. pose proof Hf as Hshape. formula_cases f Hshape.
  unfold f_env_. rewrite Hf. cbn [bind negb].
  destruct fa; reflexivity.
Qed.

Lemma f_env_attribute_witness :
  f_env_ formula0 = Ok R_NilValue.
Proof. apply (f_env_attribute formula0). reflexivity. Defined.

(** X13. [f_rhs_] and [f_lhs_] accept the same nodes: on every node both
    return, or both raise the same error, or both are unspecified. *)
Theorem f_rhs_lhs_same_outcome (f : SEXP) :
  same_outcome (f_rhs_ f) (f_lhs_ f).
Proof.
  unfold f_rhs_, f_lhs_. rewrite is_formula_shape.
  destruct (formula_shaped f) eqn:Hf; [| reflexivity].
  destruct (formula_shaped_inv f Hf) as (a & n & t & d & ->).
  cbn [bind negb Rf_length cells].
  destruct (cells d) as [l | |] eqn:Hl; [| reflexivity | reflexivity].
  cbn [bind List.length].
  destruct l as [| c1 [| c2 [| c3 l]]].
  - reflexivity.
  - destruct (cells_map_cons d _ (fst c1) [] Hl eq_refl)
      as (k & a' & t' & d' & l' & -> & _).
    reflexivity.
  - destruct (cells_map_cons d _ (fst c1) [fst c2] Hl eq_refl)
      as (k & a' & t' & d' & l' & -> & Hl' & Hm').
    destruct (cells_map_cons d' _ (fst c2) [] Hl' Hm')
      as (k2 & a2 & t2 & d2 & l2 & -> & _).
    reflexivity.
  - change (Z.of_nat (S (List.length (c1 :: c2 :: c3 :: l))))
      with (Z.of_nat (S (S (S (S (List.length l)))))).
    destruct (Z.eqb_spec (Z.of_nat (S (S (S (S (List.length l)))))) 2);
      [lia |].
    destruct (Z.eqb_spec (Z.of_nat (S (S (S (S (List.length l)))))) 3);
      [lia |].
    reflexivity.
Qed.

(** X14. The node [make_formula1] builds is a call of length two whose
    only operand is the expression given, and it carries the class
    [formula]. *)
Theorem make_formula1_shape (rhs env : SEXP) :
  exists f,
    make_formula1 rhs env = Ok f /\
    TYPEOF f = LANGSXP /\
    operands f = Ok [rhs] /\
    rlang_length f = Ok (Rf_ScalarInteger 2) /\
    Rf_getAttrib f R_ClassSymbol = Ok (Rf_mkString "formula").
Proof.
  unfold make_formula1. simpl.
  destruct env; simpl; eexists; (split; [reflexivity |]);
    repeat split; reflexivity.
Qed.

(* ------------------------------------------------------------------------- *)
(** ** Further properties: call matching *)

Lemma qualifying_iff (head : SEXP) :
  qualifying head = true <->
  exists q, In q ["$"; "@"; "::"; ":::"] /\ is_lang head q = Ok true.
Proof.
  unfold qualifying. rewrite !orb_true_iff. split.
  - intros [[[H | H] | H] | H]; eexists; rewrite is_lang_head_is, H;
      (split; [| reflexivity]); simpl; auto.
  - intros (q & Hin & H). rewrite is_lang_head_is in H. injection H as H.
    simpl in Hin. destruct Hin as [<- | [<- | [<- | [<- | []]]]]; auto.
Qed.

(** X15. Without a recognizer, [is_prefixed_call] never fails, on any
    node, and answers 0 or 1: 1 exactly on a call whose head [is_lang]
    accepts for one of [$], [@], [::] and [:::]. *)
Theorem is_prefixed_call_null (x : SEXP) :
  (is_prefixed_call x None = Ok 0 \/ is_prefixed_call x None = Ok 1) /\
  (is_prefixed_call x None = Ok 1 <->
   exists head,
     TYPEOF x = LANGSXP /\ CAR x = Ok head /\
     exists q, In q ["$"; "@"; "::"; ":::"] /\ is_lang head q = Ok true).
Proof.
  destruct x as [| | | [|] a head t d | | | | | | | |];
    try (split; [now left |];
         split; [discriminate | intros (h & H & _); discriminate]).
  unfold is_prefixed_call. cbn [TYPEOF SEXPTYPE_eqb negb CAR bind].
  rewrite qualifying_lang. cbn [bind].
  destruct (qualifying head) eqn:Hq; cbn [negb].
  - split; [now right |]. split; [| reflexivity].
    intros _. exists head. repeat split. now apply qualifying_iff.
  - split; [now left |]. split; [discriminate |].
    intros (h & _ & [= <-] & Hex). apply qualifying_iff in Hex. congruence.
Qed.

Lemma is_prefixed_call_null_witness :
  is_prefixed_call (qualified_call "@" "obj" "slot") None = Ok 1 /\
  (exists head,
      TYPEOF short_qualified_call = LANGSXP /\
      CAR short_qualified_call = Ok head /\
      exists q, In q ["$"; "@"; "::"; ":::"] /\ is_lang head q = Ok true).
Proof.
  split.
  - apply (proj2 (proj2 (is_prefixed_call_null
                           (qualified_call "@" "obj" "slot")))).
    eexists. repeat split. exists "@". split; [simpl; auto | reflexivity].
  - apply (proj1 (proj2 (is_prefixed_call_null short_qualified_call))).
    reflexivity.
Defined.

Lemma operands_second (head l n : SEXP) (rest : list SEXP) :
  operands head = Ok (l :: n :: rest) ->
  exists args, CDR head = Ok args /\ CAR args = Ok l /\ CADR args = Ok n.
Proof.
  unfold operands. intros H.
  apply bind_Ok_inv in H as (args & Hcdr & H).
  apply bind_Ok_inv in H as (cs & Hcells & H). injection H as Hm.
  destruct (cells_map_cons _ _ _ _ Hcells Hm)
    as (k & a & t & d & cs' & -> & Hcells' & Hm').
  destruct (cells_map_cons _ _ _ _ Hcells' Hm')
    as (k2 & a2 & t2 & d2 & cs2 & -> & _).
  now exists (CONS k a l t (CONS k2 a2 n t2 d2)).
Qed.

(** X16. With a recognizer, [is_prefixed_call] on a call whose qualifying
    head has two sub-arguments or more returns what the recognizer answers
    on the second one, as it is and not reduced to 0 or 1; the first
    sub-argument and any after the second are not looked at. *)
Theorem is_prefixed_call_second
        (r : SEXP -> Z) (x head l n : SEXP) (rest : list SEXP) :
  TYPEOF x = LANGSXP -> CAR x = Ok head ->
  qualifying head = true ->
  operands head = Ok (l :: n :: rest) ->
  is_prefixed_call x (Some r) = Ok (r n).
Proof.
  intros Hx Hcar Hq Hops.
  rewrite (is_prefixed_call_unfold _ _ _ Hx Hcar), Hq.
  destruct (operands_second _ _ _ _ Hops) as (args & -> & _ & Hn).
  cbn [bind]. now rewrite Hn.
Qed.

Lemma is_prefixed_call_second_witness :
  is_prefixed_call (qualified_call "$" "obj" "foo")
                   (Some (fun s => 7 * only_sym "foo" s)) = Ok 7.
Proof.
  apply (is_prefixed_call_second (fun s => 7 * only_sym "foo" s)
           (qualified_call "$" "obj" "foo")
           (Rf_lcons (SYM "$")
              (Rf_cons (SYM "obj") (Rf_cons (SYM "foo") R_NilValue)))
           (SYM "obj") (SYM "foo") []);
    reflexivity.
Defined.

(** X17. [is_any_call] only ever returns 0 or 1; it returns 1 as soon as
    the recognizer accepts the head of the call, whatever the head is, and
    whenever [is_prefixed_call] returns a non-zero answer. *)
Theorem is_any_call_normalised (r : SEXP -> Z) (x : SEXP) :
  (forall v, is_any_call x (Some r) = Ok v -> v = 0 \/ v = 1) /\
  (forall head, TYPEOF x = LANGSXP -> CAR x = Ok head -> r head <> 0 ->
                is_any_call x (Some r) = Ok 1) /\
  (forall q, is_prefixed_call x (Some r) = Ok q -> q <> 0 ->
             is_any_call x (Some r) = Ok 1).
Proof.
  assert (Hb : forall z, z <> 0 -> bool_of_int z = true).
  { intros z Hz. unfold bool_of_int. apply Z.eqb_neq in Hz. now rewrite Hz. }
  split; [| split].
  - intros v H.
    destruct x as [| | | [|] a head t d | | | | | | | |];
      try (injection H as <-; now left).
    rewrite (is_any_call_unfold (CONS Language a head t d) head r
               eq_refl eq_refl) in H.
    destruct (bool_of_int (r head)); [injection H as <-; now right |].
    apply bind_Ok_inv in H as (q & _ & H). injection H as <-.
    destruct (bool_of_int q); auto.
  - intros head Hx Hcar Hr.
    rewrite (is_any_call_unfold _ _ _ Hx Hcar). now rewrite (Hb _ Hr).
  - intros q Hq Hne.
    destruct x as [| | | [|] a head t d | | | | | | | |];
      try (injection Hq as <-; contradiction).
    rewrite (is_any_call_unfold (CONS Language a head t d) head r
               eq_refl eq_refl).
    destruct (bool_of_int (r head)); [reflexivity |].
    rewrite Hq. cbn [bind]. now rewrite (Hb _ Hne).
Qed.

Lemma is_any_call_normalised_witness :
  (1 = 0 \/ 1 = 1) /\
  is_any_call (Rf_lcons (SYM "foo") R_NilValue)
              (Some (fun s => 7 * only_sym "foo" s)) = Ok 1 /\
  is_any_call (qualified_call "$" "obj" "foo")
              (Some (fun s => 7 * only_sym "foo" s)) = Ok 1.
Proof.
  split; [| split].
  - apply (proj1 (is_any_call_normalised
             (fun s => 7 * only_sym "foo" s)
             (qualified_call "$" "obj" "foo")) 1).
    reflexivity.
  - apply (proj1 (proj2 (is_any_call_normalised
             (fun s => 7 * only_sym "foo" s)
             (Rf_lcons (SYM "foo") R_NilValue))) (SYM "foo"));
      [reflexivity | reflexivity | discriminate].
  - apply (proj2 (proj2 (is_any_call_normalised
             (fun s => 7 * only_sym "foo" s)
             (qualified_call "$" "obj" "foo"))) 7);
      [reflexivity | discriminate].
Defined.

Lemma is_prefixed_call_None_unfold (x head : SEXP) :
  TYPEOF x = LANGSXP -> CAR x = Ok head ->
  is_prefixed_call x None = Ok (int_of_bool (qualifying head)).
Proof.
  intros Hx Hcar. destruct (LANGSXP_inv _ _ Hx Hcar) as (a & t & d & ->).
  unfold is_prefixed_call. cbn [TYPEOF SEXPTYPE_eqb negb CAR bind].
  rewrite qualifying_lang. cbn [bind]. now destruct (qualifying head).
Qed.

Lemma is_rlang_prefixed_None_unfold (x head : SEXP) :
  TYPEOF x = LANGSXP -> CAR x = Ok head ->
  is_rlang_prefixed x None =
  if head_is head "::"
  then args <- CDR head ;;
       ns_sym <- CAR args ;;
       r <- is_sym ns_sym "rlang" ;;
       Ok (int_of_bool (bool_of_int r))
  else Ok 0.
Proof.
  intros Hx Hcar. destruct (LANGSXP_inv _ _ Hx Hcar) as (a & t & d & ->).
  unfold is_rlang_prefixed. cbn [TYPEOF SEXPTYPE_eqb negb CAR bind].
  rewrite is_lang_head_is. cbn [bind].
  destruct (head_is head "::"); [| reflexivity]. cbn [negb].
  unfold CDAR. cbn [CAR bind].
  destruct (CDR head) as [args | |]; try reflexivity. cbn [bind].
  destruct (CAR args) as [ns | |]; try reflexivity. cbn [bind].
  destruct (is_sym ns "rlang") as [z | |]; try reflexivity. cbn [bind].
  destruct (bool_of_int z); reflexivity.
Qed.

Lemma head_is_qualifying (head : SEXP) :
  head_is head "::" = true -> qualifying head = true.
Proof. unfold qualifying. intros ->. now rewrite !orb_true_r. Qed.

(** X18. What [is_rlang_prefixed] accepts, [is_prefixed_call] accepts
    with the same answer, with or without a recognizer; and a call that
    [is_rlang_call] accepts is accepted by [is_any_call]. *)
Theorem rlang_matchers_refine (x : SEXP) (p : sym_predicate_t) (r : SEXP -> Z) :
  (forall v, is_rlang_prefixed x p = Ok v -> v <> 0 ->
             is_prefixed_call x p = Ok v) /\
  (is_rlang_call x (Some r) = Ok 1 -> is_any_call x (Some r) = Ok 1).
Proof.
  assert (Hpre : forall p' v, is_rlang_prefixed x p' = Ok v -> v <> 0 ->
                              is_prefixed_call x p' = Ok v).
  { intros p' v H Hv.
    destruct x as [| | | [|] a head t d | | | | | | | |];
      try (injection H as <-; contradiction).
    destruct p' as [q |].
    - rewrite (is_rlang_prefixed_unfold (CONS Language a head t d) head q
                 eq_refl eq_refl) in H.
      rewrite (is_prefixed_call_unfold (CONS Language a head t d) head q
                 eq_refl eq_refl).
      destruct (head_is head "::") eqn:Hh;
        [| injection H as <-; contradiction].
      rewrite (head_is_qualifying _ Hh).
      destruct (CDR head) as [args | |]; try discriminate. cbn [bind] in *.
      destruct (CAR args) as [ns | |]; try discriminate. cbn [bind] in *.
      destruct (is_sym ns "rlang") as [z | |]; try discriminate.
      cbn [bind] in *.
      destruct (bool_of_int z); [exact H | injection H as <-; contradiction].
    - rewrite (is_rlang_prefixed_None_unfold (CONS Language a head t d) head
                 eq_refl eq_refl) in H.
      rewrite (is_prefixed_call_None_unfold (CONS Language a head t d) head
                 eq_refl eq_refl).
      destruct (head_is head "::") eqn:Hh;
        [| injection H as <-; contradiction].
      rewrite (head_is_qualifying _ Hh).
      destruct (CDR head) as [args | |]; try discriminate. cbn [bind] in *.
      destruct (CAR args) as [ns | |]; try discriminate. cbn [bind] in *.
      destruct (is_sym ns "rlang") as [z | |]; try discriminate.
      cbn [bind] in *.
      destruct (bool_of_int z); injection H as <-;
        [reflexivity | contradiction]. }
  split; [apply Hpre |].
  intros H.
  destruct x as [| | | [|] a head t d | | | | | | | |]; try discriminate.
  rewrite (is_rlang_call_unfold (CONS Language a head t d) head r
             eq_refl eq_refl) in H.
  rewrite (is_any_call_unfold (CONS Language a head t d) head r
             eq_refl eq_refl).
  destruct (bool_of_int (r head)); [reflexivity |].
  apply bind_Ok_inv in H as (v & Hv & H).
  assert (Hne : v <> 0).
  { intros ->. discriminate. }
  now rewrite (Hpre _ _ Hv Hne).
Qed.

Lemma rlang_matchers_refine_witness :
  is_prefixed_call (qualified_call "::" "rlang" "foo")
                   (Some (only_sym "foo")) = Ok 1 /\
  is_any_call (qualified_call "::" "rlang" "foo")
              (Some (only_sym "foo")) = Ok 1.
Proof.
  split.
  - apply (proj1 (rlang_matchers_refine (qualified_call "::" "rlang" "foo")
                    (Some (only_sym "foo")) (only_sym "foo")));
      [reflexivity | discriminate].
  - apply (proj2 (rlang_matchers_refine (qualified_call "::" "rlang" "foo")
                    None (only_sym "foo"))).
    reflexivity.
Defined.

(** X19. On a call whose head is [rlang::n], [is_rlang_prefixed] returns
    what the recognizer answers on [n], and 1 when there is no recognizer;
    [is_rlang_call] then answers 1 exactly when the recognizer accepts the
    head or accepts [n]. *)
Theorem is_rlang_prefixed_accepts
        (r : SEXP -> Z) (x head n : SEXP) (rest : list SEXP) :
  TYPEOF x = LANGSXP -> CAR x = Ok head ->
  is_lang head "::" = Ok true ->
  operands head = Ok (SYM "rlang" :: n :: rest) ->
  is_rlang_prefixed x (Some r) = Ok (r n) /\
  is_rlang_prefixed x None = Ok 1 /\
  is_rlang_call x (Some r)
  = Ok (int_of_bool (bool_of_int (r head) || bool_of_int (r n))).
Proof.
  intros Hx Hcar Hl Hops.
  rewrite is_lang_head_is in Hl. injection Hl as Hl.
  destruct (operands_second _ _ _ _ Hops) as (args & Hcdr & Hns & Hn).
  assert (H1 : is_rlang_prefixed x (Some r) = Ok (r n)).
  { rewrite (is_rlang_prefixed_unfold _ _ _ Hx Hcar), Hl, Hcdr.
    cbn [bind]. rewrite Hns. cbn [bind]. rewrite is_sym_SYM.
    cbn [bind String.eqb Ascii.eqb Bool.eqb int_of_bool bool_of_int Z.eqb negb].
    now rewrite Hn. }
  split; [exact H1 | split].
  - rewrite (is_rlang_prefixed_None_unfold _ _ Hx Hcar), Hl, Hcdr.
    cbn [bind]. rewrite Hns. cbn [bind]. now rewrite is_sym_SYM.
  - rewrite (is_rlang_call_unfold _ _ _ Hx Hcar), H1.
    now destruct (bool_of_int (r head)).
Qed.

Lemma is_rlang_prefixed_accepts_witness :
  is_rlang_prefixed (qualified_call "::" "rlang" "foo")
                    (Some (only_sym "foo")) = Ok 1 /\
  is_rlang_prefixed (qualified_call "::" "rlang" "foo") None = Ok 1 /\
  is_rlang_call (qualified_call "::" "rlang" "foo")
                (Some (only_sym "foo")) = Ok 1.
Proof.
  apply (is_rlang_prefixed_accepts (only_sym "foo")
           (qualified_call "::" "rlang" "foo")
           (Rf_lcons (SYM "::")
              (Rf_cons (SYM "rlang") (Rf_cons (SYM "foo") R_NilValue)))
           (SYM "foo") []);
    reflexivity.
Defined.

(* ------------------------------------------------------------------------- *)
(** ** Further properties: names *)

Lemma has_name_at_STR (x : SEXP) (a : attributes) (v : list charsxp)
      (i : nat) (c : charsxp) (s : string) :
  names x = Ok (STR a v) ->
  nth_error v i = Some c -> CHAR (CHR c) = Ok s ->
  has_name_at x (Z.of_nat i) = Ok (negb (String.eqb s EmptyString)).
Proof.
  intros Hn Hnth Hs. unfold has_name_at, and_also. rewrite Hn.
  cbn [bind is_character TYPEOF SEXPTYPE_eqb STRING_ELT]. unfold index.
  assert (Hlt : (i < List.length v)%nat)
    by (apply nth_error_Some; congruence).
  destruct (Z.leb_spec 0 (Z.of_nat i)); [| lia].
  destruct (Z.ltb_spec (Z.of_nat i) (Z.of_nat (List.length v))); [| lia].
  cbn [andb]. rewrite Nat2Z.id, Hnth. cbn [bind].
  unfold is_str_empty. rewrite Hs. cbn [bind]. now rewrite strcmp_zero.
Qed.

Lemma tag_names_nth (l : list (SEXP * SEXP)) :
  forallb (fun c => valid_tag (snd c)) l = true ->
  exists v, tag_names l = Ok v /\
    forall i car tag, nth_error l i = Some (car, tag) ->
      exists c s, nth_error v i = Some c /\ CHAR (CHR c) = Ok s /\
                  negb (String.eqb s EmptyString) = naming_tag tag.
Proof.
  induction l as [| [car0 tag0] l IH]; intros Hv.
  - exists []. split; [reflexivity |]. intros [|]; discriminate.
  - cbn [forallb snd] in Hv. apply andb_true_iff in Hv as (Ht & Hl).
    destruct (IH Hl) as (v & Hv & Hnth).
    destruct tag0 as [| n | | | | | | | | | |]; try discriminate.
    + exists (mkChar EmptyString :: v). cbn [tag_names]. rewrite Hv.
      split; [reflexivity |].
      intros [| i] car tag H.
      * injection H as <- <-. now exists (mkChar EmptyString), EmptyString.
      * now apply (Hnth i car tag).
    + exists (mkChar n :: v). cbn [tag_names]. rewrite Hv.
      split; [reflexivity |].
      intros [| i] car tag H.
      * injection H as <- <-. now exists (mkChar n), n.
      * now apply (Hnth i car tag).
Qed.

Lemma any_tag_false (l : list (SEXP * SEXP)) (i : nat) (car tag : SEXP) :
  any_tag l = false -> nth_error l i = Some (car, tag) ->
  naming_tag tag = false.
Proof.
  unfold any_tag. revert i.
  induction l as [| c l IH]; intros [| i] Ha H; try discriminate;
    cbn [existsb] in Ha; apply orb_false_iff in Ha as (Hc & Hl).
  - injection H as ->. cbn [snd] in Hc. now destruct tag.
  - now apply (IH i).
Qed.

Lemma names_of_cells (x : SEXP) (l : list (SEXP * SEXP)) :
  TYPEOF x = LANGSXP \/ TYPEOF x = LISTSXP ->
  isOneDimensionalArray x = false ->
  cells x = Ok l ->
  names x = (s <- tag_names l ;;
             if any_tag l then Ok (STR [] s) else Ok R_NilValue).
Proof.
  intros Hty Hd Hl.
  assert (E : getAttrib0 x "names"
              = (s <- tag_names l ;;
                 if any_tag l then Ok (STR [] s) else Ok R_NilValue)).
  { unfold getAttrib0. cbn [String.eqb Ascii.eqb Bool.eqb].
    rewrite Hd, Hl.
    replace (isList x || isLanguage x)%bool with true
      by (destruct x as [| | | [|] | | | | | | | |];
          destruct Hty; try discriminate; reflexivity).
    reflexivity. }
  unfold names, Rf_getAttrib, R_NamesSymbol.
  destruct x as [| | | [|] xa car t d | | | | | | | |];
    try (destruct Hty; discriminate);
    cbn [ATTRIB TYPEOF]; destruct xa;
    cbn [String.eqb Ascii.eqb Bool.eqb]; exact E.
Qed.

(** X20. On a call or pairlist with a proper chain of cells whose tags are
    symbols or absent, [has_name_at] at an index within the chain answers
    whether the cell at that index is tagged with a symbol of non-empty
    name; the head of a call is the cell of index 0. *)
Theorem has_name_at_tags
        (x : SEXP) (l : list (SEXP * SEXP)) (i : nat) (car tag : SEXP) :
  TYPEOF x = LANGSXP \/ TYPEOF x = LISTSXP ->
  isOneDimensionalArray x = false ->
  cells x = Ok l ->
  forallb (fun c => valid_tag (snd c)) l = true ->
  nth_error l i = Some (car, tag) ->
  has_name_at x (Z.of_nat i) = Ok (naming_tag tag).
Proof.
  intros Hty Hd Hl Hv Hnth.
  pose proof (names_of_cells x l Hty Hd Hl) as Hn.
  destruct (tag_names_nth l Hv) as (v & Hv' & Hall).
  rewrite Hv' in Hn. cbn [bind] in Hn.
  destruct (any_tag l) eqn:Ha.
  - destruct (Hall i car tag Hnth) as (c & s & Hc & Hs & <-).
    now apply (has_name_at_STR x [] v i c s).
  - rewrite (any_tag_false l i car tag Ha Hnth).
    unfold has_name_at, and_also. now rewrite Hn.
Qed.

Lemma has_name_at_tags_witness :
  has_name_at call_f_a_kb 2 = Ok true /\
  has_name_at call_f_a_kb 1 = Ok false.
Proof.
  split.
  - apply (has_name_at_tags call_f_a_kb
             [(SYM "f", R_NilValue); (SYM "a", R_NilValue); (SYM "b", SYM "k")]
             2 (SYM "b") (SYM "k"));
      [left; reflexivity | reflexivity | reflexivity | reflexivity
      | reflexivity].
  - apply (has_name_at_tags call_f_a_kb
             [(SYM "f", R_NilValue); (SYM "a", R_NilValue); (SYM "b", SYM "k")]
             1 (SYM "a") R_NilValue);
      [left; reflexivity | reflexivity | reflexivity | reflexivity
      | reflexivity].
Defined.

Lemma names_after_set_names_vector
      (x : SEXP) (a : attributes) (v : list charsxp) :
  isVector x = true -> isOneDimensionalArray x = false ->
  Rf_length x = Ok (Z.of_nat (List.length v)) ->
  exists y, set_names x (STR a v) = Ok y /\ names y = Ok (STR a v) /\
            isVector y = true.
Proof.
  intros Hv Hd Hlen.
  destruct (set_names_vector x a v Hv Hd Hlen) as (y & Hset & Hy).
  exists y. split; [exact Hset |].
  destruct (SET_ATTRIB_vector _ _ _ Hv Hy) as (Hvy & Hay).
  split; [| exact Hvy].
  rewrite names_of_vector; trivial.
  - now rewrite Hay, lookup_put_same.
  - unfold isOneDimensionalArray in *. rewrite Hay.
    rewrite lookup_put_other by discriminate.
    rewrite Hvy. cbn [orb andb].
    destruct x as [| | | [|] | | | | | | | |]; try discriminate; exact Hd.
  - rewrite Hay.
    destruct (putAttrib_cons "names" (STR a v) (ATTRIB x)) as (e & a' & ->).
    discriminate.
Qed.

(** X21. After [set_names] on an atomic or list vector (not a
    one-dimensional array) with as many names as elements, [has_name_at]
    at an index answers whether the name given for it has a non-empty C
    string; a missing name [NA_STRING], whose C string is [NA], counts as a
    name. *)
Theorem has_name_at_after_set_names
        (x : SEXP) (a : attributes) (v : list charsxp)
        (i : nat) (c : charsxp) (s : string) :
  isVector x = true -> isOneDimensionalArray x = false ->
  Rf_length x = Ok (Z.of_nat (List.length v)) ->
  nth_error v i = Some c -> CHAR (CHR c) = Ok s ->
  exists y, set_names x (STR a v) = Ok y /\
            has_name_at y (Z.of_nat i)
            = Ok (negb (String.eqb s EmptyString)).
Proof.
  intros Hv Hd Hlen Hnth Hs.
  destruct (names_after_set_names_vector x a v Hv Hd Hlen)
    as (y & Hset & Hn & _).
  exists y. split; [exact Hset |].
  now apply (has_name_at_STR y a v i c s).
Qed.

Lemma has_name_at_after_set_names_witness :
  exists y, set_names (INT [] [1; 2]) (STR [] [mkChar EmptyString; NA_STRING])
            = Ok y /\
            has_name_at y 1 = Ok true.
Proof.
  apply (has_name_at_after_set_names (INT [] [1; 2]) []
           [mkChar EmptyString; NA_STRING] 1 NA_STRING "NA");
    reflexivity.
Defined.

Lemma snd_combine {A B : Type} (cs : list A) :
  forall ts : list B,
    List.length cs = List.length ts -> map snd (combine cs ts) = ts.
Proof.
  induction cs as [| c0 cs IH]; intros [| t0 ts] Hlen;
    try discriminate; [reflexivity |].
  simpl. f_equal. apply IH. now injection Hlen.
Qed.

Lemma valid_tag_for (v : list charsxp) (l : list (SEXP * SEXP)) :
  map snd l = map tag_for v ->
  forallb (fun c => valid_tag (snd c)) l = true.
Proof.
  revert v. induction l as [| [car tag] l IH]; intros [| c v] H;
    try discriminate; [reflexivity |].
  simpl in H. injection H as -> H. cbn [forallb snd].
  rewrite (IH v H), andb_true_r.
  destruct c as [| [| ch s]]; reflexivity.
Qed.

Lemma naming_tag_for (c : charsxp) :
  naming_tag (tag_for c) = negb (blank c).
Proof. destruct c as [| [| ch s]]; reflexivity. Qed.

(** X22. After [set_names] on a call or pairlist (not a one-dimensional
    array) with as many names as cells, none longer than 10000 bytes,
    [has_name_at] at an index answers true exactly when the name given for
    it is neither empty nor [NA_STRING]: unlike on a vector, a missing name
    leaves the cell unnamed. *)
Theorem has_name_at_after_set_names_call
        (x : SEXP) (a : attributes) (v : list charsxp)
        (i : nat) (c : charsxp) :
  TYPEOF x = LANGSXP \/ TYPEOF x = LISTSXP ->
  isOneDimensionalArray x = false ->
  Rf_length x = Ok (Z.of_nat (List.length v)) ->
  forallb name_fits v = true ->
  nth_error v i = Some c ->
  exists y, set_names x (STR a v) = Ok y /\
            has_name_at y (Z.of_nat i) = Ok (negb (blank c)).
Proof.
  intros Hty Hd Hlen Hfit Hnth.
  assert (Hx : exists k xa car t d, x = CONS k xa car t d).
  { destruct x as [| | | k xa car t d | | | | | | | |];
      try (destruct Hty; discriminate).
    now exists k, xa, car, t, d. }
  destruct Hx as (k & xa & car0 & t & d & ->).
  assert (Hcells : exists l, cells (CONS k xa car0 t d) = Ok l /\
                             List.length l = List.length v).
  { cbn [Rf_length] in Hlen.
    destruct (cells (CONS k xa car0 t d)) as [l | |]; try discriminate.
    exists l. split; trivial. injection Hlen as Hlen. lia. }
  destruct Hcells as (l0 & Hl0 & Hlv).
  destruct (cells_set_tags _ _ _ Hl0 Hlv Hfit) as (y & Hy & Hl & Hty' & Hay).
  exists y. split.
  { rewrite set_names_unfold by (trivial; discriminate).
    rewrite Hd. now destruct k. }
  set (l := combine (map fst l0) (map tag_for v)) in *.
  assert (Htags : map snd l = map tag_for v)
    by (apply snd_combine; now rewrite !length_map).
  assert (Hi : exists car, nth_error l i = Some (car, tag_for c)).
  { assert (Hs : nth_error (map snd l) i = Some (tag_for c))
      by (rewrite Htags; now apply map_nth_error).
    rewrite nth_error_map in Hs.
    destruct (nth_error l i) as [[car tag] |]; try discriminate.
    injection Hs as <-. now exists car. }
  destruct Hi as (car & Hi).
  rewrite <- naming_tag_for.
  assert (Hty'' : TYPEOF y = LANGSXP \/ TYPEOF y = LISTSXP)
    by (rewrite Hty'; exact Hty).
  assert (Hd' : isOneDimensionalArray y = false).
  { unfold isOneDimensionalArray in *. rewrite Hay.
    destruct y as [| | | [|] | | | | | | | |]; destruct k;
      try discriminate; exact Hd. }
  pose proof (names_of_cells _ l Hty'' Hd' Hl) as Hn.
  destruct (tag_names_nth l (valid_tag_for v l Htags))
    as (w & Hw & Hall).
  rewrite Hw in Hn. cbn [bind] in Hn.
  destruct (any_tag l) eqn:Ha.
  - destruct (Hall i car _ Hi) as (c' & s & Hc & Hs & <-).
    now apply (has_name_at_STR _ [] w i c' s).
  - rewrite (any_tag_false l i car _ Ha Hi).
    unfold has_name_at, and_also. now rewrite Hn.
Qed.

Lemma has_name_at_after_set_names_call_witness :
  exists y, set_names call_f_a (STR [] [mkChar "k"; NA_STRING]) = Ok y /\
            has_name_at y 1 = Ok false.
Proof.
  apply (has_name_at_after_set_names_call call_f_a []
           [mkChar "k"; NA_STRING] 1 NA_STRING);
    [left; reflexivity | reflexivity | reflexivity | reflexivity
    | reflexivity].
Defined.

Lemma lookup_strip_same (n : string) (a : attributes) :
  lookupAttrib n (stripAttrib n a) = R_NilValue.
Proof.
  induction a as [| [t w] a IH]; [reflexivity |]. simpl.
  destruct (String.eqb t n) eqn:E; [exact IH |]. simpl. now rewrite E.
Qed.

Lemma lookup_strip_other (n m : string) (a : attributes) :
  n <> m -> lookupAttrib m (stripAttrib n a) = lookupAttrib m a.
Proof.
  intros Hne. induction a as [| [t w] a IH]; [reflexivity |]. simpl.
  destruct (String.eqb t n) eqn:E; simpl.
  - apply String.eqb_eq in E. subst t.
    apply String.eqb_neq in Hne. now rewrite Hne.
  - now rewrite IH.
Qed.

(** X23. [set_names] with [NULL] for the names, on an atomic or list
    vector that is not a one-dimensional array: the names are removed from
    the node, which afterwards has none, and what [set_names] returns is
    [NULL], not the node. *)
Theorem set_names_null (x : SEXP) :
  isVector x = true -> isOneDimensionalArray x = false ->
  set_names x R_NilValue = Ok R_NilValue /\
  exists y, Rf_setAttrib x R_NamesSymbol R_NilValue = Ok (y, R_NilValue) /\
            TYPEOF y = TYPEOF x /\ Rf_length y = Rf_length x /\
            names y = Ok R_NilValue.
Proof.
  intros Hv Hd.
  assert (Hy : exists y, SET_ATTRIB x (stripAttrib "names" (ATTRIB x)) = Ok y
                         /\ TYPEOF y = TYPEOF x /\ Rf_length y = Rf_length x)
    by (destruct x as [| | | [|] | | | | | | | |]; try discriminate;
        eexists; repeat split).
  destruct Hy as (y & Hy & Hty & Hlen).
  assert (Hset : Rf_setAttrib x R_NamesSymbol R_NilValue = Ok (y, R_NilValue)).
  { unfold Rf_setAttrib, R_NamesSymbol, removeAttrib.
    cbn [String.eqb Ascii.eqb Bool.eqb andb].
    destruct x as [| | | [|] | | | | | | | |]; try discriminate;
      cbn [isList isLanguage TYPEOF orb] in *; rewrite Hy; reflexivity. }
  split.
  - unfold set_names. now rewrite Hset.
  - exists y. repeat split; trivial.
    destruct (SET_ATTRIB_vector _ _ _ Hv Hy) as (Hvy & Hay).
    assert (Hcase : ATTRIB y = [] \/ ATTRIB y <> [])
      by (destruct (ATTRIB y); [now left | right; discriminate]).
    destruct Hcase as [Ha | Ha].
    + unfold names, Rf_getAttrib, R_NamesSymbol.
      destruct y as [| | | [|] | | | | | | | |]; try discriminate;
        cbn [ATTRIB] in Ha; rewrite Ha; reflexivity.
    + rewrite names_of_vector; trivial.
      * now rewrite Hay, lookup_strip_same.
      * unfold isOneDimensionalArray in *. rewrite Hay.
        rewrite lookup_strip_other by discriminate.
        rewrite Hvy. cbn [orb andb].
        destruct x as [| | | [|] | | | | | | | |]; try discriminate;
          exact Hd.
Qed.

Lemma set_names_null_witness :
  set_names named_vector R_NilValue = Ok R_NilValue /\
  exists y, Rf_setAttrib named_vector R_NamesSymbol R_NilValue
            = Ok (y, R_NilValue) /\
            TYPEOF y = TYPEOF named_vector /\
            Rf_length y = Rf_length named_vector /\
            names y = Ok R_NilValue.
Proof. apply (set_names_null named_vector); reflexivity. Defined.

(** X24. [set_names] raises an error, instead of returning, when the node
    is [NULL] and the names are not, when the node is a symbol, and when a
    vector is given more names than it has elements. *)
Theorem set_names_errors :
  (forall nms, nms <> R_NilValue ->
     set_names R_NilValue nms = Raise "attempt to set an attribute on NULL") /\
  (forall n a c v,
     set_names (SYM n) (STR a (c :: v))
     = Raise "names() applied to a non-vector") /\
  (forall x a v n,
     isVector x = true -> Rf_length x = Ok n ->
     n < Z.of_nat (List.length v) ->
     set_names x (STR a v)
     = Raise "'names' attribute must be the same length as the vector").
Proof.
  split; [| split].
  - intros nms Hn. destruct nms; try contradiction; reflexivity.
  - intros n a c v. unfold set_names, Rf_setAttrib, R_NamesSymbol.
    cbn [String.eqb Ascii.eqb Bool.eqb]. unfold namesgets.
    cbn [Rf_length bind].
    change (Z.of_nat (List.length (c :: v)))
      with (Z.of_nat (S (List.length v))).
    destruct (Z.ltb_spec (Z.of_nat (S (List.length v))) 1); [lia |].
    reflexivity.
  - intros x a v n Hv Hlen Hlt.
    unfold set_names, Rf_setAttrib, R_NamesSymbol.
    assert (E : forall m, (match x with
                      | R_NilValue => Raise "attempt to set an attribute on NULL"
                      | _ => m
                      end : result (SEXP * SEXP)) = m)
      by (intros m; destruct x; try reflexivity; discriminate).
    rewrite E. cbn [String.eqb Ascii.eqb Bool.eqb].
    unfold namesgets. rewrite Hlen. cbn [bind].
    destruct (Z.ltb_spec (Z.of_nat (List.length v)) n); [lia |].
    cbn [bind Rf_length]. rewrite Hv. cbn [orb].
    destruct (Z.eqb_spec n (Z.of_nat (List.length v))); [lia |].
    reflexivity.
Qed.

Lemma set_names_errors_witness :
  set_names R_NilValue (STR [] [])
  = Raise "attempt to set an attribute on NULL" /\
  set_names (INT [] [1]) (STR [] [mkChar "a"; mkChar "b"])
  = Raise "'names' attribute must be the same length as the vector".
Proof.
  split.
  - apply (proj1 set_names_errors). discriminate.
  - apply (proj2 (proj2 set_names_errors) (INT [] [1]) []
             [mkChar "a"; mkChar "b"] 1);
      [reflexivity | reflexivity | simpl; lia].
Defined.

(* ------------------------------------------------------------------------- *)
(** ** Further properties: symbols from strings *)

(** X25. [rlang_symbol] reads the first string only.  When that string is
    not empty and has at most 10000 bytes, it returns the symbol of that
    name, which [is_sym] recognises under that name and no other; the
    missing string gives the symbol [NA], and the empty string raises an
    error. *)
Theorem rlang_symbol_first (a : attributes) (rest : list charsxp) :
  (forall s,
     s <> EmptyString -> Z.of_nat (String.length s) <= 10000 ->
     rlang_symbol (STR a (mkChar s :: rest)) = Ok (SYM s) /\
     forall t, is_sym (SYM s) t = Ok (int_of_bool (String.eqb s t))) /\
  rlang_symbol (STR a (NA_STRING :: rest)) = Ok (SYM "NA") /\
  rlang_symbol (STR a (mkChar EmptyString :: rest))
  = Raise "attempt to use zero-length variable name".
Proof.
  split; [| split; reflexivity].
  intros s Hs Hlen. split; [| intros t; apply is_sym_SYM].
  unfold rlang_symbol, Rf_install_checked. cbn.
  apply String.eqb_neq in Hs. rewrite Hs.
  destruct (Z.ltb_spec 10000 (Z.of_nat (String.length s))); [lia |].
  reflexivity.
Qed.

Lemma rlang_symbol_first_witness :
  rlang_symbol (STR [] [mkChar "foo"; mkChar "bar"]) = Ok (SYM "foo") /\
  forall t, is_sym (SYM "foo") t = Ok (int_of_bool (String.eqb "foo" t)).
Proof.
  apply (proj1 (rlang_symbol_first [] [mkChar "bar"]) "foo");
    [discriminate | simpl; lia].
Defined.
